(** * collection-bioimage-io: the ingest and aggregation scripts

    A shallow embedding of [scripts/update_external_resources.py] and
    [scripts/generate_collection_rdf.py], and the properties of the merge,
    selection, resolution and projection logic proved about it.

    Conventions of the embedding:
    - Python [str] is [string]; comparison of strings is lexicographic
      ([String.compare]), as Python compares code points.
    - [list.sort]/[sorted] is the stable sort [py_sort]: Python guarantees
      stability (also under [reverse=True]), which fixes the result.
    - an exception is a value of [exn]; code that may raise returns
      [result A := exn + A].
    - YAML/JSON documents are [pyval]; a dict is an association list in
      insertion order, with string keys.
    - files are finite maps from a location to the parsed content: the
      YAML reader and writer are external collaborators, taken as inverse
      to each other. *)

From Stdlib Require Import ZArith Ascii String SpecFloat.
From stdpp Require Import base option list sorting gmap strings pretty fin_maps.

Local Open Scope string_scope.
Local Open Scope list_scope.

(** ** Exceptions *)

Inductive exn : Type :=
| AssertionError
| ValueError (msg : string)
| AttributeError
| TypeError
| KeyError (key : string)
| IndexError
| FileExistsError
| RequestException
| YAMLError.

Definition result (A : Type) : Type := exn + A.

Definition raise {A} (e : exn) : result A := inl e.
Definition ret {A} (a : A) : result A := inr a.
Definition bind {A B} (m : result A) (k : A → result B) : result B :=
  match m with
  | inl e => inl e
  | inr a => k a
  end.

Notation "x <- m ;; k" := (bind m (λ x, k))
  (at level 100, m at next level, k at level 200, right associativity).

(** Closes an equation between closed terms by evaluating both sides. *)
Ltac vm_refl :=
  lazymatch goal with
  | |- ?a = ?b => exact (@eq_refl _ b <: a = b)
  end.

(** [for x in l: body], threading the state and stopping at the first
    exception. *)
Fixpoint for_each {A S} (body : A → S → result S) (l : list A) (s : S)
  : result S :=
  match l with
  | [] => ret s
  | x :: l' => bind (body x s) (for_each body l')
  end.

(** ** Python's stable sort

    [sorted(l, key=key, reverse=reverse)]: the keys are compared with
    [leb]; elements with equal keys keep their relative order, also when
    [reverse] is set. *)

Section py_sort.
Context {A K : Type} (leb : K → K → bool) (key : A → K) (reverse : bool).

(** [x] has to come strictly before [y] in the result *)
Definition goes_before (x y : A) : bool :=
  if reverse then negb (leb (key x) (key y))
  else negb (leb (key y) (key x)).

(** [x] was to the left of every element of [l] in the input *)
Fixpoint sort_insert (x : A) (l : list A) : list A :=
  match l with
  | [] => [x]
  | y :: l' =>
    if goes_before y x then y :: sort_insert x l' else x :: y :: l'
  end.

Definition py_sort (l : list A) : list A := foldr sort_insert [] l.

(** the order of the result: [x] may stand left of [y] *)
Definition in_order (x y : A) : Prop :=
  if reverse then leb (key y) (key x) = true
  else leb (key x) (key y) = true.

End py_sort.

(** ** Documents

    What the YAML reader returns and the JSON writer takes.  A float is an
    IEEE 754 value ([spec_float]); a dict keeps its insertion order. *)

Record datetime : Type := Datetime {
  year : Z; month : Z; day : Z;
  hour : Z; minute : Z; second : Z; microsecond : Z
}.

#[warnings="-register-all"]
Inductive pyval : Type :=
| PNone
| PBool (b : bool)
| PInt (z : Z)
| PFloat (f : spec_float)
| PStr (s : string)
| PDatetime (d : datetime)
| PList (l : list pyval)
| PDict (d : list (string * pyval)).

Definition pydict : Type := list (string * pyval).

(** [d.get(k)] as an [option]: [None] when the key is missing *)
Fixpoint dict_lookup {V} (k : string) (d : list (string * V)) : option V :=
  match d with
  | [] => None
  | (k', v) :: d' => if String.eqb k' k then Some v else dict_lookup k d'
  end.

(** [d[k] = v]: a present key keeps its place, a new one goes last *)
Fixpoint dict_set {V} (k : string) (v : V) (d : list (string * V))
  : list (string * V) :=
  match d with
  | [] => [(k, v)]
  | (k', v') :: d' =>
    if String.eqb k' k then (k', v) :: d' else (k', v') :: dict_set k v d'
  end.

(** [d.get(k)], with Python's [None] for a missing key *)
Definition dict_get (k : string) (d : pydict) : pyval :=
  default PNone (dict_lookup k d).

(** [d.get(k, dflt)] *)
Definition dict_get_default (k : string) (dflt : pyval) (d : pydict)
  : pyval :=
  default dflt (dict_lookup k d).

(** truth value of a document, as [not v] and [v or w] test it *)
Definition truthy (v : pyval) : bool :=
  match v with
  | PNone => false
  | PBool b => b
  | PInt z => negb (z =? 0)%Z
  | PFloat f =>
    match f with
    | S754_zero _ => false
    | _ => true
    end
  | PStr s => negb (String.eqb s "")
  | PDatetime _ => true
  | PList l => match l with [] => false | _ => true end
  | PDict d => match d with [] => false | _ => true end
  end.

(** [datetime.isoformat(sep)] and [str(datetime)] of a naive datetime:
    [YYYY-MM-DD], the separator, [HH:MM:SS], and the microseconds when
    they are not zero. *)
Fixpoint digits (width : nat) (n : Z) : string :=
  match width with
  | O => ""
  | S w =>
    digits w (n / 10)
    +:+ String (ascii_of_nat (48 + Z.to_nat (n mod 10))) ""
  end.

Definition isoformat_sep (sep : string) (d : datetime) : string :=
  digits 4 (year d) +:+ "-" +:+ digits 2 (month d) +:+ "-"
  +:+ digits 2 (day d) +:+ sep
  +:+ digits 2 (hour d) +:+ ":" +:+ digits 2 (minute d) +:+ ":"
  +:+ digits 2 (second d)
  +:+ (if (microsecond d =? 0)%Z then ""
      else "." +:+ digits 6 (microsecond d)).

Definition isoformat (d : datetime) : string := isoformat_sep "T" d.
Definition str_datetime (d : datetime) : string := isoformat_sep " " d.

(** * [scripts/update_external_resources.py] *)

Module UpdateExternalResources.

(** ** Records of the collection *)

(** [rdf_source] of a version: a URL, or the description given inline. *)
Inductive rdf_source_t : Type :=
| RdfUrl (url : string)
| RdfInline (fields : gmap string string).

Global Instance rdf_source_t_eq_dec : EqDecision rdf_source_t.
Proof. solve_decision. Defined.

(** One entry of [resource["versions"]].  The fields the script indexes
    ([version_id], [created]) are always there; those it reads with
    [.get] or tests with [in] are optional. *)
Record Version : Type := mkVersion {
  version_id : string;
  created : string;
  rdf_source : option rdf_source_t;
  owners : option (list Z);
  v_doi : option string;
  v_status : option string;
  v_name : option pyval;
  version_name : option string;
  maintainers : option (list string)
}.

(** [del new_version["owners"]] *)
Definition del_owners (v : Version) : Version :=
  {| version_id := version_id v; created := created v;
     rdf_source := rdf_source v; owners := None; v_doi := v_doi v;
     v_status := v_status v; v_name := v_name v;
     version_name := version_name v; maintainers := maintainers v |}.

(** [new_version["maintainers"] = m] *)
Definition set_maintainers (m : list string) (v : Version) : Version :=
  {| version_id := version_id v; created := created v;
     rdf_source := rdf_source v; owners := owners v; v_doi := v_doi v;
     v_status := v_status v; v_name := v_name v;
     version_name := version_name v; maintainers := Some m |}.

(** The content of [resource.yaml], over the type [V] of the elements of
    its version list. *)
Record resource_of (V : Type) : Type := mkResource {
  status : string;
  versions : list V;
  r_id : option string;
  r_doi : option pyval;
  r_type : option pyval;
  r_owners : option (list Z)
}.
Arguments mkResource {V}.
Arguments status {V}.
Arguments versions {V}.
Arguments r_id {V}.
Arguments r_doi {V}.
Arguments r_type {V}.
Arguments r_owners {V}.

(** An element of the version list while [update_resource] runs: the
    caller's [new_version] object itself (the list holds a reference to
    it, so what is done to [new_version] later shows in the list), or a
    version that was loaded from the file. *)
Inductive vref : Type :=
| NewVersion
| Known (v : Version).

Definition deref (new_version : Version) (r : vref) : Version :=
  match r with
  | NewVersion => new_version
  | Known v => v
  end.

Definition Resource : Type := resource_of Version.

(** What a path holds: a resource record, or a document that is not a
    mapping. *)
Inductive file : Type :=
| FResource (r : Resource)
| FOther (v : pyval).

Definition set_versions {V W} (vs : list W) (r : resource_of V)
  : resource_of W :=
  mkResource (status r) vs (r_id r) (r_doi r) (r_type r) (r_owners r).
Definition set_type {V} (t : pyval) (r : resource_of V) : resource_of V :=
  mkResource (status r) (versions r) (r_id r) (r_doi r) (Some t)
             (r_owners r).
Definition set_owners {V} (o : list Z) (r : resource_of V)
  : resource_of V :=
  mkResource (status r) (versions r) (r_id r) (r_doi r) (r_type r)
             (Some o).
Definition del_doi {V} (r : resource_of V) : resource_of V :=
  mkResource (status r) (versions r) (r_id r) None (r_type r)
             (r_owners r).

(** [yaml.dump]: the references are written out as the objects they
    point to at that time. *)
Definition dump (new_version : Version) (r : resource_of vref)
  : Resource :=
  set_versions (deref new_version <$> versions r) r.

(** ** [update_resource] *)

Inductive outcome : Type :=
| Blocked
| OldHit
| Updated (resource : Resource).

(** the test of lines 43-45 on one known version *)
Definition is_known (vid : string) (new_version known_version : Version)
  : bool :=
  String.eqb (version_id known_version) vid
  && bool_decide (rdf_source new_version = rdf_source known_version).

(** lines 63-73: hoist the owners, drop an empty doi, write the file.
    Returns the resource, [new_version] as the call leaves it, and the
    files. *)
Definition write_resource (resource : resource_of vref)
    (new_version : Version) (resource_output_path : string)
    (fs : gmap string file)
  : outcome * Version * gmap string file :=
  let '(resource, new_version) :=
    match owners new_version with
    | Some o => (set_owners o resource, del_owners new_version)
    | None => (resource, new_version)
    end in
  let resource :=
    match r_doi resource with
    | Some doi => if truthy doi then resource else del_doi resource
    | None => resource
    end in
  let written := dump new_version resource in
  (Updated written, new_version,
   <[resource_output_path := FResource written]> fs).

Definition update_resource (resource_path : string) (resource_id : string)
    (resource_type : pyval) (resource_doi : pyval) (vid : string)
    (new_version : Version) (resource_output_path : string)
    (fs : gmap string file)
  : result (outcome * Version * gmap string file) :=
  let resource_path :=
    if bool_decide (is_Some (fs !! resource_output_path))
    then resource_output_path else resource_path in
  match fs !! resource_path with
  | Some (FOther _) => raise AssertionError
  | Some (FResource resource) =>
    if String.eqb (status resource) "blocked" then
      ret (Blocked, new_version, fs)
    else
      _ <- (if String.eqb (status resource) "accepted"
               || String.eqb (status resource) "pending"
            then match versions resource with
                 | [] => raise AssertionError
                 | _ :: _ => ret ()
                 end
            else raise (ValueError (status resource))) ;;
      if existsb (is_known vid new_version) (versions resource) then
        ret (OldHit, new_version, fs)
      else
        let vs := NewVersion :: (Known <$> versions resource) in
        let vs :=
          py_sort String.leb (λ v, created (deref new_version v)) true vs in
        let resource := set_type resource_type (set_versions vs resource) in
        ret (write_resource resource new_version resource_output_path fs)
  | None =>
    let resource :=
      {| status := "accepted"; versions := [NewVersion];
         r_id := Some resource_id; r_doi := Some resource_doi;
         r_type := Some resource_type; r_owners := None |} in
    ret (write_resource resource new_version resource_output_path fs)
  end.

(** The record [update_resource] works on: the one already written to
    the output in this run, else the one of the collection
    (lines 26-31). *)
Definition existing (resource_path resource_output_path : string)
    (fs : gmap string file) : option file :=
  match fs !! resource_output_path with
  | Some f => Some f
  | None => fs !! resource_path
  end.

(** ** [update_with_new_version] *)

(** [m.strip("@")]: the at-signs at both ends are removed *)
Fixpoint lstrip_at (s : string) : string :=
  match s with
  | String "@" s' => lstrip_at s'
  | _ => s
  end.
Definition strip_at (s : string) : string :=
  String.rev (lstrip_at (String.rev (lstrip_at s))).

(** lines 83-89: the GitHub handles of the maintainers of the rdf *)
Definition maintainers_of (rdf : pyval) : list string :=
  match rdf with
  | PDict d =>
    match dict_get "maintainers" d with
    | PList ms =>
      if forallb (λ m, match m with PDict _ => true | _ => false end) ms
      then
        omap (λ m,
               match m with
               | PDict md =>
                 match dict_get "github_user" md with
                 | PStr u =>
                   if String.eqb u "" then None
                   else Some ("@" +:+ strip_at u)
                 | _ => None
                 end
               | _ => None
               end) ms
      else []
    | _ => []
    end
  | _ => []
  end.

(** [updated_resources[resource_id].append(v)] on a
    [defaultdict(list)] *)
Fixpoint dict_append {V} (k : string) (v : V) (d : list (string * list V))
  : list (string * list V) :=
  match d with
  | [] => [(k, [v])]
  | (k', vs) :: d' =>
    if String.eqb k' k then (k', vs ++ [v]) :: d'
    else (k', vs) :: dict_append k v d'
  end.

Definition update_with_new_version (new_version : Version)
    (resource_id : string) (rdf : pyval)
    (updated_resources : list (string * list Version))
  : Version * list (string * list Version) :=
  let new_version := set_maintainers (maintainers_of rdf) new_version in
  (new_version, dict_append resource_id new_version updated_resources).

(** ** [update_from_zenodo]: one hit *)

Record file_hit : Type := mkFileHit {
  key : string;         (* file_hit["key"] *)
  links_self : string   (* file_hit["links"]["self"] *)
}.

Record hit : Type := mkHit {
  conceptdoi : string;
  doi : string;               (* the "version" doi *)
  hit_created : datetime;     (* hit["created"], parsed, zone dropped *)
  files : list file_hit;
  hit_owners : list Z;
  hit_id : Z;
  version_index : Z  (* hit["metadata"]["relations"]["version"][0]["index"] *)
}.

(** what is printed *)
Inductive message : Type :=
| FoundMultipleRdfSources      (* "found multiple 'rdf.yaml' sources?!?" *)
| FailedToObtainVersionName (e : exn).

(** the variables of lines 119-122 *)
Record descriptor : Type := mkDescriptor {
  rdf : pyval;
  d_rdf_source : string;
  name : pyval;
  resource_type : pyval;
  printed : list message
}.

Definition set_rdf (v : pyval) (d : descriptor) : descriptor :=
  mkDescriptor v (d_rdf_source d) (name d) (resource_type d) (printed d).
Definition set_rdf_source (s : string) (d : descriptor) : descriptor :=
  mkDescriptor (rdf d) s (name d) (resource_type d) (printed d).
Definition set_name (v : pyval) (d : descriptor) : descriptor :=
  mkDescriptor (rdf d) (d_rdf_source d) v (resource_type d) (printed d).
Definition set_resource_type (v : pyval) (d : descriptor) : descriptor :=
  mkDescriptor (rdf d) (d_rdf_source d) (name d) v (printed d).
Definition print (m : message) (d : descriptor) : descriptor :=
  mkDescriptor (rdf d) (d_rdf_source d) (name d) (resource_type d)
               (printed d ++ [m]).

Section network.
(** [requests.get(url).text] and [yaml.load(text)]: either may raise *)
Context (requests_get : string → result string).
Context (yaml_load : string → result pyval).

(** The body of the [try] of lines 129-132.  The assignments made
    before an exception stay; the exception is returned next to
    them. *)
Definition try_fetch (doi : string) (d : descriptor)
  : option exn * descriptor :=
  match requests_get (d_rdf_source d) with
  | inl e => (Some e, d)
  | inr text =>
    match yaml_load text with
    | inl e => (Some e, d)
    | inr loaded =>
      let d := set_rdf loaded d in
      match loaded with
      | PDict fields =>
        let d := set_name (dict_get_default "name" (PStr doi) fields) d in
        let d := set_resource_type (dict_get "type" fields) d in
        (None, d)
      | _ => (Some AttributeError, d)   (* rdf.get on a non-dict *)
      end
    end
  end.

Definition rdf_urls (h : hit) : list string :=
  links_self <$> List.filter (λ f, String.eqb (key f) "rdf.yaml") (files h).

(** lines 118-134 *)
Definition fetch_rdf (h : hit) : result descriptor :=
  let d :=
    {| rdf := PNone; d_rdf_source := "unknown"; name := PStr (doi h);
       resource_type := PStr "unknown"; printed := [] |} in
  if (0 <? length (rdf_urls h))%nat then
    let d := if (1 <? length (rdf_urls h))%nat
             then print FoundMultipleRdfSources d else d in
    match py_sort String.leb id false (rdf_urls h) with
    | [] => raise IndexError
    | first :: _ =>
      let d := set_rdf_source first d in
      match try_fetch (doi h) d with
      | (Some e, d) => ret (print (FailedToObtainVersionName e) d)
      | (None, d) => ret d
      end
    end
  else ret d.

(** lines 136-147 *)
Definition new_version_of (h : hit) (d : descriptor) : Version :=
  {| version_id := "'" +:+ pretty (hit_id h) +:+ "'";
     created := str_datetime (hit_created h);
     rdf_source := Some (RdfUrl (d_rdf_source d));
     owners := Some (hit_owners h);
     v_doi := Some (doi h);
     v_status := Some "accepted";
     v_name := Some (name d);
     version_name := Some ("version " +:+ pretty (version_index h + 1)%Z);
     maintainers := None |}.

(** lines 111-159: the body of [for hit in hits] *)
Definition process_hit (collection dist : string) (h : hit)
    (st : gmap string file * list (string * list Version)
          * list message)
  : result (gmap string file * list (string * list Version)
            * list message) :=
  let '(fs, updated_resources, out) := st in
  let resource_doi := conceptdoi h in
  let resource_path := collection +:+ "/" +:+ resource_doi +:+ "/resource.yaml" in
  let resource_output_path := dist +:+ "/" +:+ resource_doi +:+ "/resource.yaml" in
  d <- fetch_rdf h ;;
  let new_version := new_version_of h d in
  r <- update_resource resource_path resource_doi (resource_type d)
         (PStr resource_doi) (version_id new_version) new_version
         resource_output_path fs ;;
  let '(res, new_version, fs) := r in
  match res with
  | Blocked | OldHit => ret (fs, updated_resources, out ++ printed d)
  | Updated _ =>
    let '(_, updated_resources) :=
      update_with_new_version new_version resource_doi (rdf d)
                              updated_resources in
    ret (fs, updated_resources, out ++ printed d)
  end.

End network.

(** ** [main]: which resources get an update *)

(** [min(l)] of strings *)
Definition py_min (l : list string) : result string :=
  match l with
  | [] => raise (ValueError "min() arg is an empty sequence")
  | x :: l' => ret (foldl (λ m y, if String.ltb y m then y else m) x l')
  end.

(** [<=] on tuples of two strings *)
Definition tuple_leb (a b : string * string) : bool :=
  if String.eqb a.1 b.1 then String.leb a.2 b.2 else String.leb a.1 b.1.

(** the key of line 173 *)
Definition oldest_key (kv : string * list Version)
  : result (string * string) :=
  m <- py_min (created <$> kv.2) ;; ret (m, kv.1).

(** the keys are computed once for every item, before the sort *)
Fixpoint with_keys (items : list (string * list Version))
  : result (list ((string * string) * (string * list Version))) :=
  match items with
  | [] => ret []
  | kv :: items' =>
    k <- oldest_key kv ;;
    rest <- with_keys items' ;;
    ret ((k, kv) :: rest)
  end.

(** lines 172-174 *)
Definition oldest_updated_resources
    (updated_resources : list (string * list Version))
  : result (list (string * list Version)) :=
  keyed <- with_keys updated_resources ;;
  ret (snd <$> py_sort tuple_leb fst false keyed).

(** [l[:n]] *)
Definition slice_to {A} (n : Z) (l : list A) : list A :=
  if (0 <=? n)%Z then take (Z.to_nat n) l
  else take (Z.to_nat (Z.of_nat (length l) + n)) l.

(** [dict(l)] of a list of pairs *)
Definition py_dict {V} (l : list (string * V)) : list (string * V) :=
  foldl (λ d kv, dict_set kv.1 kv.2 d) [] l.

(** lines 184, 188: the branch the pull request of a resource is on *)
Definition auto_update_branch (resource_id : string) : string :=
  "origin/auto-update-" +:+ resource_id.

(** the default of the option [max_resource_count] of [main] *)
Definition default_max_resource_count : Z := 3.

(** lines 172-189; [git_branch_r] is the output of [git branch -r],
    split at white space. *)
Definition limited_updated_resources (max_resource_count : Z)
    (git_branch_r : list string)
    (updated_resources : list (string * list Version))
  : result (list (string * list Version)) :=
  oldest <- oldest_updated_resources updated_resources ;;
  let limited := py_dict (slice_to max_resource_count oldest) in
  let remote_branches :=
    List.filter (String.prefix "origin/auto-update-") git_branch_r in
  ret (List.filter
         (λ kv, negb (bool_decide
                        (auto_update_branch kv.1 ∈ remote_branches)))
         limited).

End UpdateExternalResources.

(** * [scripts/generate_collection_rdf.py] *)

Module GenerateCollectionRdf.

(** ** What the script reads *)

(** an element of [r["versions"]] *)
Record version_record : Type := mkVersionRecord {
  v_status : string;
  version_id : string
}.

(** a [resource.yaml] of the collection, with the path it was found at *)
Record resource : Type := mkResource {
  r_path : string;
  status : string;
  resource_id : string;
  versions : list version_record
}.

(** The directory [resources/<version_id>] of a work tree: the parsed
    [rdf.yaml], when there is one, and the parsed
    [validation_summary_<name>.yaml] files by [<name>], in the order
    [glob] yields them. *)
Record version_dir : Type := mkVersionDir {
  rdf_yaml : option pyval;
  validation_summary : list (string * pyval)
}.

(** a work tree: its [resources/] directory, by [version_id] *)
Abbreviation tree := (gmap string version_dir).

Record worktrees : Type := mkWorktrees {
  gh_pages : tree;                          (* dist/gh-pages *)
  gh_pages_previews : gmap string tree;     (* dist/gh-pages-previews/<branch> *)
  gh_pages_update : tree                    (* dist/gh-pages-update *)
}.

(** [v_path.parent] *)
Inductive location : Type :=
| InPreview (preview_branch vid : string)
| InUpdate (vid : string)
| InGhPages (vid : string).

Definition dir_at (loc : location) (wt : worktrees) : option version_dir :=
  match loc with
  | InPreview b vid => gh_pages_previews wt !! b ≫= (.!! vid)
  | InUpdate vid => gh_pages_update wt !! vid
  | InGhPages vid => gh_pages wt !! vid
  end.

(** the content of [v_path], when [v_path.exists()] *)
Definition rdf_at (loc : location) (wt : worktrees) : option pyval :=
  dir_at loc wt ≫= rdf_yaml.

Inductive message : Type :=
| Checkout (preview_branch : string)
| UpdateFrom (preview_branch vid : string)
| IgnoringMissingVersion (v_path : location)
| IgnoringNonDictVersion (v_path : location)
| IgnoringResourceWithoutVersions (r_path : string)
| IgnoringResourceWithType (r_path type_ : string).

(** ** The state of [main] *)

Record state : Type := mkState {
  wt : worktrees;
  processed_gh_pages_previews : list string;
  attachments : pyval;
  n_accepted : list (string * Z);
  n_accepted_versions : list (string * Z);
  printed : list message
}.

Definition set_wt (w : worktrees) (st : state) : state :=
  mkState w (processed_gh_pages_previews st) (attachments st)
          (n_accepted st) (n_accepted_versions st) (printed st).
Definition set_processed (l : list string) (st : state) : state :=
  mkState (wt st) l (attachments st) (n_accepted st)
          (n_accepted_versions st) (printed st).
Definition set_attachments (a : pyval) (st : state) : state :=
  mkState (wt st) (processed_gh_pages_previews st) a (n_accepted st)
          (n_accepted_versions st) (printed st).
Definition set_counts (n nv : list (string * Z)) (st : state) : state :=
  mkState (wt st) (processed_gh_pages_previews st) (attachments st) n nv
          (printed st).
Definition print (m : message) (st : state) : state :=
  mkState (wt st) (processed_gh_pages_previews st) (attachments st)
          (n_accepted st) (n_accepted_versions st) (printed st ++ [m]).

(** ** Where a version is read from (lines 65-79) *)

(** [ghp_up.mkdir(parents=True)] and the [copytree] that moves the
    files of the preview directory there: the preview directory stays,
    empty. *)
Definition move_to_update (preview_branch vid : string) (d : version_dir)
    (w : worktrees) : result worktrees :=
  match gh_pages_update w !! vid with
  | Some _ => raise FileExistsError
  | None =>
    ret {| gh_pages := gh_pages w;
           gh_pages_previews :=
             alter (insert vid (mkVersionDir None [])) preview_branch
                   (gh_pages_previews w);
           gh_pages_update := <[vid := d]> (gh_pages_update w) |}
  end.

Definition resolve (from_preview : bool) (preview_branch vid : string)
    (st : state) : result (location * state) :=
  if from_preview then
    let v_path := InPreview preview_branch vid in
    match dir_at v_path (wt st) with
    | Some d =>
      match rdf_yaml d with
      | Some _ =>
        let st :=
          set_processed (processed_gh_pages_previews st ++ [preview_branch])
                        st in
        w <- move_to_update preview_branch vid d (wt st) ;;
        ret (InUpdate vid, print (UpdateFrom preview_branch vid) (set_wt w st))
      | None => ret (v_path, st)
      end
    | None => ret (v_path, st)
    end
  else ret (InGhPages vid, st).

(** ** One accepted version (lines 81-107) *)

(** lines 95-98 *)
Definition summary_of (val_sum : pyval) : pyval :=
  let val_sum :=
    match val_sum with
    | PDict d => d
    | _ => [("output", val_sum)]
    end in
  PDict (List.filter (λ kv, negb (String.eqb kv.1 "source_name")) val_sum).

(** lines 91-98 *)
Definition val_summaries_of (d : version_dir) : pydict :=
  foldl (λ acc kv, dict_set kv.1 (summary_of kv.2) acc) []
        (validation_summary d).

(** the body of [for v in r["versions"]]; the first component of the
    state is [latest_version] *)
Definition add_version (r : resource) (from_preview : bool)
    (preview_branch : string) (v : version_record)
    (acc : option pydict * state) : result (option pydict * state) :=
  let '(latest_version, st) := acc in
  if negb (String.eqb (v_status v) "accepted") then ret acc
  else
    res <- resolve from_preview preview_branch (version_id v) st ;;
    let '(v_path, st) := res in
    match dir_at v_path (wt st) with
    | None => ret (latest_version, print (IgnoringMissingVersion v_path) st)
    | Some d =>
      match rdf_yaml d with
      | None =>
        ret (latest_version, print (IgnoringMissingVersion v_path) st)
      | Some (PDict this_version) =>
        let this_version :=
          dict_set "validation_summaries" (PDict (val_summaries_of d))
                   this_version in
        match latest_version with
        | None =>
          let latest_version :=
            dict_set "resource_id" (PStr (resource_id r)) this_version in
          let latest_version :=
            dict_set "previous_versions" (PList []) latest_version in
          ret (Some latest_version, st)
        | Some latest_version =>
          match dict_lookup "previous_versions" latest_version with
          | Some (PList previous) =>
            ret (Some (dict_set "previous_versions"
                                (PList (previous ++ [PDict this_version]))
                                latest_version), st)
          | Some _ => raise AttributeError
          | None => raise (KeyError "previous_versions")
          end
        end
      | Some _ =>
        ret (latest_version, print (IgnoringNonDictVersion v_path) st)
      end
    end.

(** ** Filing the latest version (lines 112-122)

    The type of a resource is a string (a classifier); the embedding
    raises [TypeError] for any other key, as Python does for the
    unhashable ones. *)
Definition file_latest (r_path : string) (latest_version : pydict)
    (st : state) : result state :=
  match dict_get_default "type" (PStr "unknown") latest_version with
  | PStr type_ =>
    match attachments st with
    | PDict att =>
      let att := dict_set type_ (dict_get type_ att) att in
      match dict_get type_ att with
      | PList type_list =>
        match dict_lookup "previous_versions" latest_version with
        | Some (PList previous) =>
          let att :=
            dict_set type_ (PList (type_list ++ [PDict latest_version]))
                     att in
          let n := dict_set type_
                     (default 0 (dict_lookup type_ (n_accepted st)) + 1)%Z
                     (n_accepted st) in
          let nv := dict_set type_
                      (default 0 (dict_lookup type_ (n_accepted_versions st))
                       + 1 + Z.of_nat (length previous))%Z
                      (n_accepted_versions st) in
          ret (set_counts n nv (set_attachments (PDict att) st))
        | Some _ => raise TypeError
        | None => raise (KeyError "previous_versions")
        end
      | _ =>
        ret (print (IgnoringResourceWithType r_path type_)
                   (set_attachments (PDict att) st))
      end
    | _ => raise AttributeError
    end
  | _ => raise TypeError
  end.

(** ** One resource (lines 47-122) *)

Definition preview_branch_of (r : resource) : string :=
  "gh-pages-auto-update-" +:+ resource_id r.

(** [git worktree add ghp_prev preview_branch]; [origin] has the trees
    of the remote branches *)
Definition checkout (origin : gmap string tree) (preview_branch : string)
    (st : state) : state :=
  let st := print (Checkout preview_branch) st in
  match origin !! preview_branch with
  | Some t =>
    set_wt {| gh_pages := gh_pages (wt st);
              gh_pages_previews :=
                <[preview_branch := t]> (gh_pages_previews (wt st));
              gh_pages_update := gh_pages_update (wt st) |} st
  | None => st
  end.

(** lines 51-107: the preview is checked out when there is one, and
    the versions are gone through; returns [latest_version] *)
Definition latest_version_of (remote_branches : list string)
    (origin : gmap string tree) (r : resource) (st : state)
  : result (option pydict * state) :=
  let preview_branch := preview_branch_of r in
  let from_preview :=
    bool_decide ("origin/" +:+ preview_branch ∈ remote_branches) in
  let st := if from_preview then checkout origin preview_branch st
            else st in
  for_each (add_version r from_preview preview_branch)
           (versions r) (None, st).

Definition process_resource (remote_branches : list string)
    (origin : gmap string tree) (r : resource) (st : state)
  : result state :=
  if negb (String.eqb (status r) "accepted") then ret st
  else
    res <- latest_version_of remote_branches origin r st ;;
    let '(latest_version, st) := res in
    match latest_version with
    | None => ret (print (IgnoringResourceWithoutVersions (r_path r)) st)
    | Some latest_version => file_latest (r_path r) latest_version st
    end.

(** ** The JSON projection (lines 136-151) *)

(** what [visit] returns: [True], or the item [(k, v)] to put in place
    ([convert_for_json] always returns the key it was given) *)
Inductive visited : Type :=
| VTrue
| VItem (v : pyval).

(** the literals of line 139, each with the float it denotes *)
Definition number_strings : list (string * spec_float) :=
  [("-inf", S754_infinity true); ("inf", S754_infinity false);
   ("nan", S754_nan)].

(** [v == f] for a float [f] that is not finite: an int or a bool is
    equal to finite floats only, the other documents to no float *)
Definition eq_float (v : pyval) (f : spec_float) : bool :=
  match v with
  | PFloat g => SFeqb g f
  | _ => false
  end.

Definition convert_for_json (v : pyval) : visited :=
  match List.find (λ n, eq_float v n.2) number_strings with
  | Some n => VItem (PStr n.1)
  | None =>
    match v with
    | PDatetime d => VItem (PStr (isoformat d))
    | _ => VTrue
    end
  end.

(** [boltons.iterutils.remap]: every item of every container is
    visited, the items of a container before the container itself, and
    a container is visited as it is after its items were replaced.  The
    root is not visited. *)
Fixpoint remap (visit : pyval → visited) (v : pyval) : pyval :=
  match v with
  | PList l =>
    PList (map (λ x, let x' := remap visit x in
                     match visit x' with
                     | VTrue => x'
                     | VItem y => y
                     end) l)
  | PDict d =>
    PDict (map (λ kv, let x' := remap visit kv.2 in
                      (kv.1, match visit x' with
                             | VTrue => x'
                             | VItem y => y
                             end)) d)
  | _ => v
  end.

(** what [json.dump] writes, as a tree *)
#[warnings="-register-all"]
Inductive json : Type :=
| JNull
| JBool (b : bool)
| JInt (z : Z)
| JFloat (f : spec_float)
| JStr (s : string)
| JArr (l : list json)
| JObj (d : list (string * json)).

Definition is_finite (f : spec_float) : bool :=
  match f with
  | S754_zero _ | S754_finite _ _ _ => true
  | S754_infinity _ | S754_nan => false
  end.

(** [json.dump(v, f, allow_nan=False)] *)
Fixpoint json_dump (v : pyval) : result json :=
  match v with
  | PNone => ret JNull
  | PBool b => ret (JBool b)
  | PInt z => ret (JInt z)
  | PFloat f =>
    if is_finite f then ret (JFloat f)
    else raise (ValueError
                  "Out of range float values are not JSON compliant")
  | PStr s => ret (JStr s)
  | PDatetime _ => raise TypeError
  | PList l =>
    l' <- (fix items (l : list pyval) : result (list json) :=
             match l with
             | [] => ret []
             | x :: l => x' <- json_dump x ;;
                         r <- items l ;;
                         ret (x' :: r)
             end) l ;;
    ret (JArr l')
  | PDict d =>
    d' <- (fix items (d : list (string * pyval))
             : result (list (string * json)) :=
             match d with
             | [] => ret []
             | kv :: d => x' <- json_dump kv.2 ;;
                          r <- items d ;;
                          ret ((kv.1, x') :: r)
             end) d ;;
    ret (JObj d')
  end.

(** ** [main] *)

Record output : Type := mkOutput {
  rdf_yaml_out : pydict;                     (* dist/gh-pages-update/rdf.yaml *)
  rdf_json_out : json;                       (* dist/gh-pages-update/rdf.json *)
  processed_previews_out : list string;      (* processed_gh_pages_previews *)
  processed_any_out : string;                (* processed_any_gh_pages_previews *)
  final : state
}.

Definition counts_doc (n : list (string * Z)) : pyval :=
  PDict (map (λ kv, (kv.1, PInt kv.2)) n).

(** [work] holds the work trees as line 39 leaves them. *)
Definition main (template : pydict) (remote_branches : list string)
    (origin : gmap string tree) (known_resources : list resource)
    (work : worktrees) : result output :=
  let att := dict_get_default "attachments" (PDict []) template in
  let st :=
    {| wt := work; processed_gh_pages_previews := []; attachments := att;
       n_accepted := []; n_accepted_versions := []; printed := [] |} in
  st <- for_each (process_resource remote_branches origin)
                 known_resources st ;;
  let rdf := dict_set "attachments" (attachments st) template in
  config <- match dict_lookup "config" rdf with
            | Some (PDict config) => ret config
            | Some _ => raise TypeError
            | None => raise (KeyError "config")
            end ;;
  let config := dict_set "n_resources" (counts_doc (n_accepted st)) config in
  let config := dict_set "n_resource_versions"
                         (counts_doc (n_accepted_versions st)) config in
  let rdf := dict_set "config" (PDict config) rdf in
  j <- json_dump (remap convert_for_json (PDict rdf)) ;;
  ret {| rdf_yaml_out := rdf; rdf_json_out := j;
         processed_previews_out := processed_gh_pages_previews st;
         processed_any_out :=
           match processed_gh_pages_previews st with
           | [] => "no"
           | _ :: _ => "yes"
           end;
         final := st |}.

End GenerateCollectionRdf.

(** * What is proved about the merge *)

Module UpdateSpec.
Import UpdateExternalResources.

(** two versions are the same one when this pair is the same *)
Definition dedup_key (v : Version) : string * option rdf_source_t :=
  (version_id v, rdf_source v).

(** [created] never goes up from left to right *)
Definition created_descending (l : list Version) : Prop :=
  StronglySorted (λ a b, String.leb (created b) (created a) = true) l.



Definition mergeable (r : Resource) : Prop :=
  status r = "accepted" ∨ status r = "pending".





End UpdateSpec.

(** * What is proved about the scan and the selection *)

Module ScanSpec.
Import UpdateExternalResources.



(** the least [created] of the new versions of a resource, as line 173
    computes it *)
Definition min_created (vs : list Version) : string :=
  match py_min (created <$> vs) with
  | inr m => m
  | inl _ => ""
  end.

(** the sort key of line 173 *)
Definition key_of (kv : string * list Version) : string * string :=
  (min_created kv.2, kv.1).

(** a resource for which a pull request is open already *)
Definition pending (git_branch_r : list string)
    (kv : string * list Version) : bool :=
  bool_decide (auto_update_branch kv.1 ∈ git_branch_r).

End ScanSpec.

(** * Concrete inputs used below *)

Module Examples.
Import UpdateExternalResources UpdateSpec.

Definition collection_path : string :=
  "collection/10.5281/zenodo.5764892/resource.yaml".
Definition dist_path : string :=
  "dist/10.5281/zenodo.5764892/resource.yaml".
Definition concept : string := "10.5281/zenodo.5764892".

Definition version (vid day : string) : Version :=
  {| version_id := vid;
     created := "2024-" +:+ day +:+ " 00:00:00";
     rdf_source :=
       Some (RdfUrl ("https://zenodo.org/api/files/" +:+ vid +:+ "/rdf.yaml"));
     owners := Some [77%Z];
     v_doi := Some ("10.5281/zenodo." +:+ vid);
     v_status := Some "accepted";
     v_name := Some (PStr "model");
     version_name := Some "version 1";
     maintainers := None |}.

Definition v_jan : Version := del_owners (version "101" "01-01").
Definition v_feb : Version := del_owners (version "102" "02-01").
Definition v_mar : Version := version "103" "03-01".

Definition record (st : string) (vs : list Version) : Resource :=
  {| status := st; versions := vs; r_id := Some concept;
     r_doi := Some (PStr concept); r_type := Some (PStr "model");
     r_owners := Some [77%Z] |}.

(** the collection holds an accepted resource with two versions *)
Definition fs_two : gmap string file :=
  {[ collection_path := FResource (record "accepted" [v_feb; v_jan]) ]}.


(** the collection holds a blocked resource *)
Definition fs_blocked : gmap string file :=
  {[ collection_path := FResource (record "blocked" [v_feb; v_jan]) ]}.


End Examples.

Module ScanExamples.
Import UpdateExternalResources Examples.



(** four resources with new versions; the one of [r-b] is the oldest *)
Definition four_updated : list (string * list Version) :=
  [("r-c", [version "301" "03-01"]);
   ("r-a", [version "102" "02-01"; version "103" "04-01"]);
   ("r-d", [version "401" "05-01"]);
   ("r-b", [version "201" "01-01"])].

Definition branches : list string :=
  ["origin/HEAD"; "->"; "origin/main"; "origin/auto-update-r-b";
   "origin/gh-pages"].

End ScanExamples.

(** * What is proved about the aggregation *)

Module GenerateSpec.
Import GenerateCollectionRdf.




(** what [remap] puts in the place of an item *)
Definition visit_item (visit : pyval → visited) (x : pyval) : pyval :=
  let x' := remap visit x in
  match visit x' with
  | VTrue => x'
  | VItem y => y
  end.

Definition is_list (v : pyval) : Prop :=
  match v with
  | PList _ => True
  | _ => False
  end.

(** the entry that is made of the first version that is read: its
    content, with the validation summaries, the id of the resource and
    no previous versions yet *)
Definition entry_of (rid : string) (d : version_dir) (content : pydict)
  : pydict :=
  dict_set "previous_versions" (PList [])
    (dict_set "resource_id" (PStr rid)
       (dict_set "validation_summaries" (PDict (val_summaries_of d))
                 content)).

(** the attachments and the counts are the same in both states *)
Definition same_catalog (st st' : state) : Prop :=
  attachments st' = attachments st
  ∧ n_accepted st' = n_accepted st
  ∧ n_accepted_versions st' = n_accepted_versions st.

(** the type of an entry (line 112) *)
Definition type_of (latest_version : pydict) : pyval :=
  dict_get_default "type" (PStr "unknown") latest_version.

End GenerateSpec.

Module GenerateExamples.
Import GenerateCollectionRdf.



(** ** A resource with a preview *)

Definition preview_r1 : string := "gh-pages-auto-update-r1".

Definition content (nm ty : string) : pydict :=
  [("name", PStr nm); ("type", PStr ty)].

Definition dir_of (c : pydict) : version_dir :=
  {| rdf_yaml := Some (PDict c);
     validation_summary := [("static", PDict [("status", PStr "passed");
                                             ("source_name", PStr "rdf.yaml")])] |}.

(** [v2] is the latest version of [r1], [v1] the one before; both are
    accepted *)
Definition r1 : resource :=
  {| r_path := "collection/r1/resource.yaml"; status := "accepted";
     resource_id := "r1";
     versions := [mkVersionRecord "accepted" "v2";
                  mkVersionRecord "accepted" "v1"] |}.

(** the preview branch of [r1] holds [v2] only *)
Definition origin_r1 : gmap string tree :=
  {[ preview_r1 := {[ "v2" := dir_of (content "model two" "model") ]} ]}.

(** [gh-pages] holds [v1] only *)
Definition work_r1 : worktrees :=
  {| gh_pages := {[ "v1" := dir_of (content "model one" "model") ]};
     gh_pages_previews := ∅;
     gh_pages_update := ∅ |}.

Definition remotes_r1 : list string :=
  ["origin/HEAD"; "->"; "origin/main"; "origin/gh-pages";
   "origin/gh-pages-auto-update-r1"].

Definition template : pydict :=
  [("name", PStr "collection");
   ("attachments", PDict [("model", PList [])]);
   ("config", PDict [("id", PStr "bioimageio")])].

Definition start (w : worktrees) : state :=
  {| wt := w; processed_gh_pages_previews := [];
     attachments := PDict [("model", PList [])];
     n_accepted := []; n_accepted_versions := []; printed := [] |}.


(** the entry of [r1] that is made of [v2] *)
Definition entry_r1 : pydict :=
  [("name", PStr "model two"); ("type", PStr "model");
   ("validation_summaries",
    PDict [("static", PDict [("status", PStr "passed")])]);
   ("resource_id", PStr "r1");
   ("previous_versions", PList [])].

(** ** A resource of a type the template does not list *)

Definition r2 : resource :=
  {| r_path := "collection/r2/resource.yaml"; status := "accepted";
     resource_id := "r2";
     versions := [mkVersionRecord "accepted" "w1"] |}.

Definition work_r2 : worktrees :=
  {| gh_pages := {[ "w1" := dir_of (content "a notebook" "notebook") ]};
     gh_pages_previews := ∅;
     gh_pages_update := ∅ |}.

End GenerateExamples.

(** * [update_from_zenodo]: the pages *)

Module ZenodoScan.
Import UpdateExternalResources.

(** what is read of the answer to the request of one page:
    [r.status_code] and [r.json()["hits"]["hits"]] *)
Record response : Type := mkResponse {
  status_code : Z;
  page_hits : list hit
}.

(** what lines 102 and 104 print *)
Inductive page_message : Type :=
| CouldNotGetPage (page : nat) (code : Z)
| CollectingItems (page : nat).

(** the files, [updated_resources] and what the hits printed *)
Definition scan_state : Type :=
  gmap string file * list (string * list Version) * list message.

Section scan.
(** the archive, by page; the descriptor files; the parser *)
Context (zenodo_get : nat → result response).
Context (requests_get : string → result string).
Context (yaml_load : string → result pyval).

(** [for page in pages] of lines 98-159, with its two [break]s *)
Fixpoint scan_pages (collection dist : string) (pages : list nat)
    (log : list page_message) (st : scan_state)
  : result (list page_message * scan_state) :=
  match pages with
  | [] => ret (log, st)
  | page :: pages' =>
    r <- zenodo_get page ;;
    if negb (status_code r =? 200)%Z then
      ret (log ++ [CouldNotGetPage page (status_code r)], st)
    else
      let log := log ++ [CollectingItems page] in
      match page_hits r with
      | [] => ret (log, st)
      | _ :: _ =>
        st' <- for_each (process_hit requests_get yaml_load collection dist)
                        (page_hits r) st ;;
        scan_pages collection dist pages' log st'
      end
  end.

(** [range(1, 10)] *)
Definition pages_1_to_9 : list nat := seq 1 9.

Definition update_from_zenodo (collection dist : string)
    (updated_resources : list (string * list Version))
    (fs : gmap string file)
  : result (list page_message * scan_state) :=
  scan_pages collection dist pages_1_to_9 [] (fs, updated_resources, []).

End scan.

End ZenodoScan.

(** * [set_gh_actions_output] of [generate_collection_rdf.py] *)

Module GhActions.

(** [s.replace(old, new)] for a pattern [old] of one character *)
Fixpoint replace_char (old : ascii) (new : string) (s : string) : string :=
  match s with
  | EmptyString => EmptyString
  | String c s' =>
    if Ascii.eqb c old then new +:+ replace_char old new s'
    else String c (replace_char old new s')
  end.

Definition percent : ascii := "%"%char.
Definition cr : ascii := "013"%char.
Definition lf : ascii := "010"%char.

(** line 19 *)
Definition escape (output : string) : string :=
  replace_char lf "%0A" (replace_char cr "%0D" (replace_char percent "%25" output)).

(** lines 16-20: the line that is printed *)
Definition set_gh_actions_output (name output : string) : string :=
  "::set-output name=" +:+ name +:+ "::" +:+ escape output.

(** What the reader of the step output does with a value: the three
    escapes are taken back, from left to right.  Used to state that
    nothing is lost. *)
Fixpoint unescape (s : string) : string :=
  match s with
  | String "%" (String "2" (String "5" s')) => String percent (unescape s')
  | String "%" (String "0" (String "D" s')) => String cr (unescape s')
  | String "%" (String "0" (String "A" s')) => String lf (unescape s')
  | String c s' => String c (unescape s')
  | EmptyString => EmptyString
  end.

End GhActions.

(** * Predicates for the statements about the scan *)

Module ScanMore.
Import UpdateExternalResources.

Definition starts_with_at (s : string) : bool :=
  match s with
  | String "@" _ => true
  | _ => false
  end.

Fixpoint ends_with_at (s : string) : bool :=
  match s with
  | EmptyString => false
  | String c EmptyString => Ascii.eqb c "@"
  | String _ s' => ends_with_at s'
  end.

(** what [updated_resources] is as a [defaultdict(list)] that is only
    appended to: no key twice, no empty list *)
Definition appended_only (updated_resources : list (string * list Version))
  : Prop :=
  NoDup updated_resources.*1
  ∧ Forall (λ kv, kv.2 ≠ []) updated_resources.

End ScanMore.

(** * [main] of [update_external_resources.py]: scan and selection *)

Module UpdateMain.
Import UpdateExternalResources ZenodoScan.

Section main.
Context (zenodo_get : nat → result response).
Context (requests_get : string → result string).
Context (yaml_load : string → result pyval).

(** lines 167-189: the scan fills an empty mapping, of which the
    resources to open a pull request for are selected; returns the
    files and the selected resources *)
Definition main (collection dist : string) (max_resource_count : Z)
    (git_branch_r : list string) (fs : gmap string file)
  : result (gmap string file * list (string * list Version)) :=
  r <- update_from_zenodo zenodo_get requests_get yaml_load
         collection dist [] fs ;;
  let '(_, (fs, updated_resources, _)) := r in
  limited <- limited_updated_resources max_resource_count git_branch_r
               updated_resources ;;
  ret (fs, limited).

End main.

End UpdateMain.

(** * Predicates for the statements about the pages *)

Module ScanPages.
Import UpdateExternalResources ZenodoScan.

(** line 115 and line 116 *)
Definition record_path (collection : string) (h : hit) : string :=
  collection +:+ "/" +:+ conceptdoi h +:+ "/resource.yaml".
Definition output_path (dist : string) (h : hit) : string :=
  dist +:+ "/" +:+ conceptdoi h +:+ "/resource.yaml".

(** a page that is gone through: the archive answers 200 with hits *)
Definition full_page (r : response) : Prop :=
  status_code r = 200%Z ∧ page_hits r ≠ [].

(** a page that ends the scan (lines 101-103 and 107-108) *)
Definition last_page (r : response) : Prop :=
  status_code r ≠ 200%Z ∨ page_hits r = [].

(** the call of lines 148-156 for a hit and what was read of its
    descriptor *)
Definition call_of (collection dist : string) (h : hit) (d : descriptor)
    (fs : gmap string file)
  : result (outcome * Version * gmap string file) :=
  update_resource (record_path collection h) (conceptdoi h)
    (resource_type d) (PStr (conceptdoi h))
    (version_id (new_version_of h d)) (new_version_of h d)
    (output_path dist h) fs.

(** what a hit that is new adds to [updated_resources]: the new version
    as [update_resource] leaves it, with the maintainers *)
Definition appended (h : hit) (d : descriptor) : Version :=
  set_maintainers (maintainers_of (rdf d)) (del_owners (new_version_of h d)).

(** the record of the resource [k] in the output *)
Definition output_record (dist k : string) (fs : gmap string file)
  : option file :=
  fs !! (dist +:+ "/" +:+ k +:+ "/resource.yaml").

(** [v] is listed in [vs], maintainers aside *)
Definition listed (v : Version) (vs : list Version) : Prop :=
  ∃ v', v' ∈ vs ∧ v = set_maintainers (default [] (maintainers v)) v'.

(** an archive of three pages: two hits, one of them again, and an
    empty page; all descriptors are the same text *)
Definition hit_a : hit :=
  {| conceptdoi := "10.5281/zenodo.100"; doi := "10.5281/zenodo.101";
     hit_created := Datetime 2024 1 1 0 0 0 0;
     files := [mkFileHit "rdf.yaml" "https://zenodo.org/a/rdf.yaml"];
     hit_owners := [77%Z]; hit_id := 101; version_index := 0 |}.
Definition hit_b : hit :=
  {| conceptdoi := "10.5281/zenodo.200"; doi := "10.5281/zenodo.201";
     hit_created := Datetime 2023 6 1 12 0 0 0;
     files := []; hit_owners := [78%Z]; hit_id := 201;
     version_index := 2 |}.

Definition archive (page : nat) : result response :=
  match page with
  | 1 => inr (mkResponse 200 [hit_a; hit_b])
  | 2 => inr (mkResponse 200 [hit_a])
  | 3 => inr (mkResponse 200 [])
  | _ => inr (mkResponse 500 [])
  end.

Definition descriptor_text (url : string) : result string := inr "rdf".
Definition parsed (text : string) : result pyval :=
  inr (PDict [("name", PStr "a model");
              ("maintainers", PList [PDict [("github_user", PStr "fynnbe")]])]).

End ScanPages.

(** * Predicates for the statements about the aggregation *)

Module GenerateMoreSpec.
Import GenerateCollectionRdf GenerateSpec GhActions.

(** what [escape] puts in the place of a character *)
Definition escape_char (c : ascii) : string :=
  if Ascii.eqb c percent then "%25"
  else if Ascii.eqb c cr then "%0D"
  else if Ascii.eqb c lf then "%0A"
  else String c "".

(** [c in s] for a character *)
Fixpoint has_char (c : ascii) (s : string) : bool :=
  match s with
  | EmptyString => false
  | String a s' => Ascii.eqb a c || has_char c s'
  end.

(** no infinite float and no datetime is in the document *)
Fixpoint json_ready (v : pyval) : bool :=
  match v with
  | PFloat (S754_infinity _) => false
  | PDatetime _ => false
  | PList l => forallb json_ready l
  | PDict d => forallb (λ kv, json_ready kv.2) d
  | _ => true
  end.

(** the number of entries of a type in the attachments *)
Definition n_entries (type_ : string) (att : pyval) : Z :=
  match att with
  | PDict att =>
    match dict_lookup type_ att with
    | Some (PList bucket) => Z.of_nat (length bucket)
    | _ => 0
    end
  | _ => 0
  end.

(** the number of versions an entry stands for: itself and its
    previous versions *)
Definition n_versions_of (entry : pyval) : Z :=
  match entry with
  | PDict e =>
    match dict_lookup "previous_versions" e with
    | Some (PList previous) => 1 + Z.of_nat (length previous)
    | _ => 0
    end
  | _ => 0
  end.

Definition sum_list (l : list Z) : Z := foldr Z.add 0%Z l.

Definition n_versions (type_ : string) (att : pyval) : Z :=
  match att with
  | PDict att =>
    match dict_lookup type_ att with
    | Some (PList bucket) => sum_list (n_versions_of <$> bucket)
    | _ => 0
    end
  | _ => 0
  end.

(** a count of [n_accepted] or [n_accepted_versions] *)
Definition count_of (type_ : string) (n : list (string * Z)) : Z :=
  default 0%Z (dict_lookup type_ n).



(** what is made of a version directory that holds a mapping: the
    mapping with the validation summaries *)
Definition version_doc (d : version_dir) : option pydict :=
  match rdf_yaml d with
  | Some (PDict this_version) =>
    Some (dict_set "validation_summaries" (PDict (val_summaries_of d))
                   this_version)
  | _ => None
  end.

(** What the script does to the work trees between two states: it
    leaves [gh-pages] as it is, and it adds directories to the update
    directory, one for every preview it records as processed. *)
Definition moved (st st' : state) : Prop :=
  gh_pages (wt st') = gh_pages (wt st)
  ∧ gh_pages_update (wt st) ⊆ gh_pages_update (wt st')
  ∧ ∃ new,
      processed_gh_pages_previews st'
      = processed_gh_pages_previews st ++ new
      ∧ size (gh_pages_update (wt st'))
        = size (gh_pages_update (wt st)) + length new.

(** the counts are the numbers of entries and versions that were
    added to the attachments [att0] *)
Definition counted (att0 : pyval) (st : state) : Prop :=
  ∀ type_,
    n_entries type_ (attachments st)
    = (n_entries type_ att0 + count_of type_ (n_accepted st))%Z
    ∧ n_versions type_ (attachments st)
      = (n_versions type_ att0
         + count_of type_ (n_accepted_versions st))%Z.

(** the versions on [gh-pages] in the order of the record *)
Definition docs_of (st : state) (vs : list version_record)
    (docs : list pydict) : Prop :=
  Forall2 (λ v doc, String.eqb (v_status v) "accepted" = true
                    ∧ gh_pages (wt st) !! version_id v ≫= version_doc
                      = Some doc) vs docs.

(** the entry of a resource: the first version, with the id of the
    resource and the versions after it *)
Definition entry_with (rid : string) (first : pydict)
    (previous : list pydict) : pydict :=
  dict_set "previous_versions" (PList (PDict <$> previous))
    (dict_set "resource_id" (PStr rid) first).

(** the mapping a summary is made of (lines 95-96) *)
Definition fields_of (val_sum : pyval) : pydict :=
  match val_sum with
  | PDict d => d
  | _ => [("output", val_sum)]
  end.

(** a resource with three versions on [gh-pages] and no preview *)
Definition r3 : resource :=
  {| r_path := "collection/r3/resource.yaml"; status := "accepted";
     resource_id := "r3";
     versions := [mkVersionRecord "accepted" "u3";
                  mkVersionRecord "pending" "u4";
                  mkVersionRecord "accepted" "u2";
                  mkVersionRecord "accepted" "u1"] |}.

Definition dir_u (nm : string) : version_dir :=
  mkVersionDir (Some (PDict [("name", PStr nm); ("type", PStr "model")])) [].

Definition dir_u3 : version_dir :=
  mkVersionDir (Some (PDict [("name", PStr "three"); ("type", PStr "model")]))
    [("static", PDict [("status", PStr "passed");
                       ("source_name", PStr "rdf.yaml")])].

Definition work_r3 : worktrees :=
  {| gh_pages :=
       {[ "u1" := dir_u "one"; "u2" := dir_u "two"; "u3" := dir_u3 ]};
     gh_pages_previews := ∅;
     gh_pages_update := ∅ |}.

Definition doc_u (nm : string) : pydict :=
  [("name", PStr nm); ("type", PStr "model");
   ("validation_summaries", PDict [])].
Definition doc_u1 : pydict := doc_u "one".
Definition doc_u2 : pydict := doc_u "two".
Definition doc_u3 : pydict :=
  [("name", PStr "three"); ("type", PStr "model");
   ("validation_summaries",
    PDict [("static", PDict [("status", PStr "passed")])])].

End GenerateMoreSpec.

(** * The order of the timestamps *)

Module DatetimeSpec.





End DatetimeSpec.
(** ** Order on strings *)

Module StrOrd.

Definition le (s t : string) : Prop := String.leb s t = true.

Lemma ascii_compare_lt_trans a b c :
  Ascii.compare a b = Lt → Ascii.compare b c = Lt → Ascii.compare a c = Lt.
Proof.
  unfold Ascii.compare. rewrite !N.compare_lt_iff. apply N.lt_trans.
Qed.

Lemma compare_refl s : String.compare s s = Eq.
Proof.
  induction s as [|a s IH]; simpl; [done|].
  unfold Ascii.compare. by rewrite N.compare_refl.
Qed.

Lemma compare_lt_trans s t u :
  String.compare s t = Lt → String.compare t u = Lt →
  String.compare s u = Lt.
Proof.
  revert t u. induction s as [|a s IH]; intros [|b t] [|c u]; simpl;
    try done.
  destruct (Ascii.compare a b) eqn:Hab; try done.
  - apply Ascii.compare_eq_iff in Hab as ->.
    destruct (Ascii.compare b c); try done. apply IH.
  - destruct (Ascii.compare b c) eqn:Hbc; try done.
    + apply Ascii.compare_eq_iff in Hbc as <-. by rewrite Hab.
    + by rewrite (ascii_compare_lt_trans _ _ _ Hab Hbc).
Qed.

Lemma leb_refl s : String.leb s s = true.
Proof. unfold String.leb. by rewrite compare_refl. Qed.

Lemma leb_trans s t u :
  String.leb s t = true → String.leb t u = true → String.leb s u = true.
Proof.
  unfold String.leb. intros Hst Htu.
  destruct (String.compare s t) eqn:Est; try done.
  - by apply String.compare_eq_iff in Est as ->.
  - destruct (String.compare t u) eqn:Etu; try done.
    + apply String.compare_eq_iff in Etu as <-. by rewrite Est.
    + by rewrite (compare_lt_trans _ _ _ Est Etu).
Qed.

Lemma ltb_leb s t : String.ltb s t = negb (String.leb t s).
Proof.
  unfold String.ltb, String.leb. rewrite (String.compare_antisym t s).
  by destruct (String.compare s t).
Qed.

Lemma leb_false_flip s t : String.leb s t = false → String.leb t s = true.
Proof. destruct (String.leb_total s t) as [->| ->]; done. Qed.

Global Instance le_dec s t : Decision (le s t).
Proof. unfold le. apply _. Defined.
Global Instance le_refl : Reflexive le.
Proof. intros s. apply leb_refl. Qed.
Global Instance le_trans : Transitive le.
Proof. intros s t u. apply leb_trans. Qed.
Global Instance le_total : Total le.
Proof. intros s t. apply String.leb_total. Qed.
Global Instance le_antisym : AntiSymm (=) le.
Proof. intros s t. apply String.leb_antisym. Qed.

End StrOrd.

(** ** Facts about the stable sort *)

Section py_sort_facts.
Context {A K : Type} (leb : K → K → bool) (key : A → K) (reverse : bool).

Local Abbreviation goes_before := (goes_before leb key reverse).
Local Abbreviation sort_insert := (sort_insert leb key reverse).
Local Abbreviation py_sort := (py_sort leb key reverse).
Local Abbreviation in_order := (in_order leb key reverse).

Hypothesis leb_total : ∀ a b, leb a b = true ∨ leb b a = true.
Hypothesis leb_trans :
  ∀ a b c, leb a b = true → leb b c = true → leb a c = true.

Lemma in_order_trans x y z : in_order x y → in_order y z → in_order x z.
Proof. unfold in_order. destruct reverse; eauto. Qed.

Lemma goes_before_in_order x y : goes_before x y = true → in_order x y.
Proof.
  unfold goes_before, in_order. destruct reverse; intros Hb;
    apply negb_true_iff in Hb.
  - destruct (leb_total (key x) (key y)); congruence.
  - destruct (leb_total (key x) (key y)); congruence.
Qed.

Lemma not_goes_before_in_order x y :
  goes_before y x = false → in_order x y.
Proof.
  unfold goes_before, in_order. destruct reverse; intros Hb;
    by apply negb_false_iff in Hb.
Qed.

Lemma sort_insert_perm x l : sort_insert x l ≡ₚ x :: l.
Proof.
  induction l as [|y l IH]; simpl; [done|].
  destruct (goes_before y x); [|done].
  rewrite IH. apply Permutation_swap.
Qed.

Lemma py_sort_perm l : py_sort l ≡ₚ l.
Proof.
  induction l as [|x l IH]; simpl; [done|].
  by rewrite sort_insert_perm, IH.
Qed.

Lemma sort_insert_sorted x l :
  StronglySorted in_order l → StronglySorted in_order (sort_insert x l).
Proof.
  induction 1 as [|y l Hl IH Hy]; simpl.
  - repeat constructor.
  - destruct (goes_before y x) eqn:Hb.
    + constructor; [done|].
      rewrite sort_insert_perm. constructor; [|done].
      by apply goes_before_in_order.
    + apply not_goes_before_in_order in Hb.
      constructor; [by constructor|].
      constructor; [done|].
      eapply Forall_impl; [exact Hy|].
      intros z Hz. by eapply in_order_trans.
Qed.

Lemma py_sort_sorted l : StronglySorted in_order (py_sort l).
Proof.
  induction l as [|x l IH]; simpl; [constructor|].
  by apply sort_insert_sorted.
Qed.

(** a list that is in order already is left as it is *)
Lemma sort_insert_head x l :
  Forall (in_order x) l → sort_insert x l = x :: l.
Proof.
  destruct 1 as [|y l Hy _]; simpl; [done|].
  unfold goes_before. unfold in_order in Hy.
  destruct reverse; by rewrite Hy.
Qed.

Lemma py_sort_id l : StronglySorted in_order l → py_sort l = l.
Proof.
  induction 1 as [|x l Hl IH Hx]; simpl; [done|].
  rewrite IH. by apply sort_insert_head.
Qed.

End py_sort_facts.


(** ** Where the stable sort puts a new element *)

Section py_sort_place.
Context {A K : Type} (leb : K → K → bool) (key : A → K) (reverse : bool).

(** [x] goes behind the elements that have to come before it, and in
    front of all others, so in front of the ones with an equal key *)
Lemma sort_insert_split x l :
  ∃ l1 l2, l = l1 ++ l2
           ∧ sort_insert leb key reverse x l = l1 ++ x :: l2
           ∧ Forall (λ y, goes_before leb key reverse y x = true) l1
           ∧ match l2 with
             | [] => True
             | y :: _ => goes_before leb key reverse y x = false
             end.
Proof.
  induction l as [|y l IH].
  - exists [], []. by split_and!.
  - simpl. destruct (goes_before leb key reverse y x) eqn:Hy.
    + destruct IH as (l1 & l2 & -> & -> & H1 & H2).
      exists (y :: l1), l2. split_and!; [done..| |done]. by constructor.
    + exists [], (y :: l). by split_and!.
Qed.

End py_sort_place.
(** ** Facts about dicts *)

Lemma dict_lookup_set_eq {V} k (v : V) d :
  dict_lookup k (dict_set k v d) = Some v.
Proof.
  induction d as [|[k' v'] d IH]; simpl.
  - by rewrite String.eqb_refl.
  - destruct (String.eqb k' k) eqn:E; simpl; by rewrite E.
Qed.

Lemma dict_lookup_set_ne {V} k k' (v : V) d :
  k ≠ k' → dict_lookup k' (dict_set k v d) = dict_lookup k' d.
Proof.
  intros Hne. induction d as [|[k0 v0] d IH]; simpl.
  - by apply String.eqb_neq in Hne as ->.
  - destruct (String.eqb k0 k) eqn:E; simpl; [|by rewrite IH].
    apply String.eqb_eq in E as ->.
    by apply String.eqb_neq in Hne as ->.
Qed.


Lemma dict_set_same {V} k (v : V) d :
  dict_lookup k d = Some v → dict_set k v d = d.
Proof.
  induction d as [|[k' v'] d IH]; simpl; [done|].
  destruct (String.eqb k' k); [by intros [= ->]|].
  intros H. by rewrite IH.
Qed.


Lemma dict_set_set {V} k (v w : V) d :
  dict_set k v (dict_set k w d) = dict_set k v d.
Proof.
  induction d as [|[k' v'] d IH]; simpl.
  - by rewrite String.eqb_refl.
  - destruct (String.eqb k' k) eqn:E; simpl; rewrite E; [done|].
    by rewrite IH.
Qed.

Lemma dict_get_set_eq k v d : dict_get k (dict_set k v d) = v.
Proof. unfold dict_get. by rewrite dict_lookup_set_eq. Qed.

(** ** Facts about strings *)

Lemma string_app_cons a (s t : string) :
  String a s +:+ t = String a (s +:+ t).
Proof. done. Qed.

Lemma string_app_length (s t : string) :
  String.length (s +:+ t) = String.length s + String.length t.
Proof.
  induction s as [|a s IH]; [done|].
  rewrite string_app_cons. simpl. by rewrite IH.
Qed.

Lemma string_app_assoc (s t u : string) : (s +:+ t) +:+ u = s +:+ t +:+ u.
Proof.
  induction s as [|a s IH]; [done|].
  by rewrite !string_app_cons, IH.
Qed.

Lemma string_app_inj_r (s1 s2 t : string) : s1 +:+ t = s2 +:+ t → s1 = s2.
Proof.
  revert s2. induction s1 as [|a s1 IH]; intros [|b s2] H.
  - done.
  - apply (f_equal String.length) in H.
    rewrite !string_app_length in H. simpl in H. lia.
  - apply (f_equal String.length) in H.
    rewrite !string_app_length in H. simpl in H. lia.
  - rewrite !string_app_cons in H.
    injection H as -> H. f_equal. by apply IH.
Qed.


(** * Facts about [update_resource] *)

Module UpdateFacts.
Import UpdateExternalResources UpdateSpec.

Lemma existing_lookup rp rop (fs : gmap string file) :
  fs !! (if bool_decide (is_Some (fs !! rop)) then rop else rp)
  = existing rp rop fs.
Proof.
  unfold existing. destruct (fs !! rop) as [f|] eqn:E.
  - rewrite bool_decide_eq_true_2 by eauto. by rewrite E.
  - rewrite bool_decide_eq_false_2; [done|]. by intros [? ?].
Qed.

Lemma existing_insert rp rop f (fs : gmap string file) :
  existing rp rop (<[rop := f]> fs) = Some f.
Proof. unfold existing. by rewrite lookup_insert_eq. Qed.

(** what [write_resource] returns *)
Definition after_hoist (nv : Version) : Version :=
  match owners nv with
  | Some _ => del_owners nv
  | None => nv
  end.



Lemma write_resource_spec (res : resource_of vref) nv rop fs :
  ∃ w, write_resource res nv rop fs
       = (Updated w, after_hoist nv, <[rop := FResource w]> fs)
       ∧ status w = status res
       ∧ versions w = deref (after_hoist nv) <$> versions res
       ∧ r_owners w = match owners nv with
                      | Some o => Some o
                      | None => r_owners res
                      end.
Proof.
  unfold write_resource, after_hoist.
  destruct (owners nv) as [o|]; simpl;
    destruct (r_doi res) as [d|]; simpl; try destruct (truthy d);
    eexists; (split; [reflexivity|done]).
Qed.

(** the duplicate test, as a statement *)
Lemma existsb_is_known vid nv (vs : list Version) :
  existsb (is_known vid nv) vs = true
  ↔ ∃ known, known ∈ vs ∧ version_id known = vid
             ∧ rdf_source known = rdf_source nv.
Proof.
  rewrite existsb_exists. unfold is_known. split.
  - intros (k & Hin & Hk). apply andb_true_iff in Hk as [Hv Hr].
    apply String.eqb_eq in Hv. apply bool_decide_eq_true in Hr.
    exists k. by rewrite list_elem_of_In.
  - intros (k & Hin & Hv & Hr). exists k.
    rewrite <-list_elem_of_In. split; [done|].
    apply andb_true_iff. split; [by apply String.eqb_eq|].
    by apply bool_decide_eq_true.
Qed.


Lemma deref_known nv (vs : list Version) : deref nv <$> (Known <$> vs) = vs.
Proof. rewrite <-list_fmap_compose. apply list_fmap_id. Qed.

(** the list that is written after an insertion *)
Lemma inserted_perm nv (vs : list Version) :
  deref (after_hoist nv)
    <$> py_sort String.leb (λ v, created (deref nv v)) true
                (NewVersion :: (Known <$> vs))
  ≡ₚ after_hoist nv :: vs.
Proof.
  rewrite py_sort_perm. csimpl. by rewrite deref_known.
Qed.



(** The three ways a call on a mergeable record ends. *)
Lemma update_resource_mergeable rp rid rtype rdoi vid nv rop fs r :
  existing rp rop fs = Some (FResource r) →
  mergeable r → versions r ≠ [] →
  update_resource rp rid rtype rdoi vid nv rop fs
  = if existsb (is_known vid nv) (versions r)
    then inr (OldHit, nv, fs)
    else inr (write_resource
                (set_type rtype
                   (set_versions
                      (py_sort String.leb (λ v, created (deref nv v)) true
                               (NewVersion :: (Known <$> versions r))) r))
                nv rop fs).
Proof.
  intros Hex Hm Hne. unfold update_resource.
  rewrite existing_lookup, Hex.
  assert (String.eqb (status r) "blocked" = false) as ->.
  { apply String.eqb_neq. by destruct Hm as [-> | ->]. }
  assert (String.eqb (status r) "accepted"
          || String.eqb (status r) "pending" = true) as ->.
  { destruct Hm as [-> | ->]; done. }
  destruct (versions r) as [|v vs] eqn:Hvs; [done|].
  rewrite <-Hvs. cbn [bind ret].
  by destruct (existsb (is_known vid nv) (versions r)).
Qed.

Lemma update_resource_old_hit rp rid rtype rdoi vid nv rop fs r :
  existing rp rop fs = Some (FResource r) →
  mergeable r →
  (∃ known, known ∈ versions r ∧ version_id known = vid
            ∧ rdf_source known = rdf_source nv) →
  update_resource rp rid rtype rdoi vid nv rop fs = inr (OldHit, nv, fs).
Proof.
  intros Hex Hm Hk.
  rewrite (update_resource_mergeable _ _ _ _ _ _ _ _ r); [|done..|].
  - apply existsb_is_known in Hk. by rewrite Hk.
  - destruct Hk as (k & Hin & _). intros E. rewrite E in Hin.
    by apply not_elem_of_nil in Hin.
Qed.

(** a call that writes leaves a mergeable record that holds the new
    version *)
Lemma update_resource_updated rp rid rtype rdoi vid nv rop fs w nv' fs' :
  update_resource rp rid rtype rdoi vid nv rop fs
  = inr (Updated w, nv', fs') →
  nv' = after_hoist nv ∧ fs' = <[rop := FResource w]> fs
  ∧ mergeable w ∧ nv' ∈ versions w
  ∧ (∀ o, owners nv = Some o → r_owners w = Some o).
Proof.
  unfold update_resource. rewrite existing_lookup.
  destruct (existing rp rop fs) as [[r|?]|]; [|done|].
  - destruct (String.eqb (status r) "blocked"); [done|].
    destruct (String.eqb (status r) "accepted"
              || String.eqb (status r) "pending") eqn:Hst; [|done].
    destruct (versions r) as [|v vs] eqn:Hvs; [done|].
    rewrite <-Hvs. cbn [bind ret].
    destruct (existsb (is_known vid nv) (versions r)); [done|].
    match goal with
    | |- context [write_resource ?res _ _ _] =>
      destruct (write_resource_spec res nv rop fs)
        as (w0 & -> & Hs & Hv & Ho)
    end.
    intros [= <- <- <-]. split_and!; [done..| | |].
    + unfold mergeable. rewrite Hs. simpl.
      apply orb_true_iff in Hst as [H|H]; apply String.eqb_eq in H; auto.
    + rewrite Hv. cbn [versions set_type set_versions].
      apply (list_elem_of_fmap_2 (deref (after_hoist nv)) _ NewVersion).
      rewrite py_sort_perm. left.
    + intros o Hnv. by rewrite Ho, Hnv.
  - simpl.
    match goal with
    | |- context [write_resource ?res _ _ _] =>
      destruct (write_resource_spec res nv rop fs)
        as (w0 & -> & Hs & Hv & Ho)
    end.
    intros [= <- <- <-]. split_and!; [done..| | |].
    + left. by rewrite Hs.
    + rewrite Hv. simpl. left.
    + intros o Hnv. by rewrite Ho, Hnv.
Qed.


End UpdateFacts.

(** * The merge: invariant, duplicates, blocked resources, owners *)

Module UpdateClaims.
Import UpdateExternalResources UpdateSpec UpdateFacts Examples.




(** C2.  On an accepted or pending record that lists a version with the
    [version_id] and the [rdf_source] of the new version, the call
    returns [old_hit]; the files are the ones before the call (nothing
    is written, the record is as it was) and [new_version] is as it
    was.  So the same call again does the same. *)
Theorem update_resource_known_is_old_hit rp rid rtype rdoi nv rop fs r :
  existing rp rop fs = Some (FResource r) →
  mergeable r →
  (∃ known, known ∈ versions r ∧ dedup_key known = dedup_key nv) →
  update_resource rp rid rtype rdoi (version_id nv) nv rop fs
  = inr (OldHit, nv, fs)
  ∧ existing rp rop fs = Some (FResource r).
Proof.
  intros Hex Hm (k & Hin & Hk). split; [|done].
  eapply update_resource_old_hit; [done..|].
  exists k. unfold dedup_key in Hk. by simplify_eq.
Qed.

Lemma update_resource_known_is_old_hit_witness :
  update_resource collection_path concept (PStr "model") (PStr concept)
                  (version_id (version "101" "01-01"))
                  (version "101" "01-01") dist_path fs_two
  = inr (OldHit, version "101" "01-01", fs_two)
  ∧ existing collection_path dist_path fs_two
    = Some (FResource (record "accepted" [v_feb; v_jan])).
Proof.
  apply (update_resource_known_is_old_hit collection_path concept
           (PStr "model") (PStr concept) (version "101" "01-01")
           dist_path fs_two (record "accepted" [v_feb; v_jan])).
  - by vm_compute.
  - by left.
  - exists v_jan. split; [|by vm_compute]. right. left.
Defined.

(** the call that follows a call that wrote is an [old_hit] too *)
Lemma update_resource_again rp rid rtype rdoi rtype' rdoi' nv rop fs
    w nv' fs' :
  update_resource rp rid rtype rdoi (version_id nv) nv rop fs
  = inr (Updated w, nv', fs') →
  update_resource rp rid rtype' rdoi' (version_id nv') nv' rop fs'
  = inr (OldHit, nv', fs').
Proof.
  intros Hup.
  apply update_resource_updated in Hup as (-> & -> & Hm & Hin & _).
  eapply update_resource_old_hit; [apply existing_insert|done|].
  by exists (after_hoist nv).
Qed.

(** C3.  On a record whose status is [blocked] the call returns
    [blocked], whatever the new version is; the files and
    [new_version] are as they were. *)
Theorem update_resource_blocked rp rid rtype rdoi vid nv rop fs r :
  existing rp rop fs = Some (FResource r) →
  status r = "blocked" →
  update_resource rp rid rtype rdoi vid nv rop fs = inr (Blocked, nv, fs).
Proof.
  intros Hex Hst. unfold update_resource.
  by rewrite existing_lookup, Hex, Hst.
Qed.

Lemma update_resource_blocked_witness :
  update_resource collection_path concept (PStr "model") (PStr concept)
                  "103" v_mar dist_path fs_blocked
  = inr (Blocked, v_mar, fs_blocked).
Proof.
  apply (update_resource_blocked collection_path concept (PStr "model")
           (PStr concept) "103" v_mar dist_path fs_blocked
           (record "blocked" [v_feb; v_jan])).
  - by vm_compute.
  - reflexivity.
Defined.

(** C10.  When the call returns the resource, a [new_version] that had
    [owners] has lost that key, and the resource has got the value; the
    entry of the version list, which is the same object, has lost it
    too.  A [new_version] without [owners] is as it was. *)
Theorem update_resource_moves_owners rp rid rtype rdoi vid nv rop fs
    w nv' fs' :
  update_resource rp rid rtype rdoi vid nv rop fs
  = inr (Updated w, nv', fs') →
  match owners nv with
  | Some o =>
    nv' = del_owners nv ∧ owners nv' = None ∧ r_owners w = Some o
    ∧ nv' ∈ versions w
  | None => nv' = nv
  end.
Proof.
  intros Hup.
  apply update_resource_updated in Hup as (-> & _ & _ & Hin & Ho).
  unfold after_hoist in *. destruct (owners nv) as [o|]; [|done].
  split_and!; [done..| |done]. by apply Ho.
Qed.

Lemma update_resource_moves_owners_witness :
  del_owners v_mar = del_owners v_mar
  ∧ owners (del_owners v_mar) = None
  ∧ r_owners (record "accepted" [del_owners v_mar; v_feb; v_jan])
    = Some [77%Z]
  ∧ del_owners v_mar
    ∈ versions (record "accepted" [del_owners v_mar; v_feb; v_jan]).
Proof.
  apply (update_resource_moves_owners collection_path concept
           (PStr "model") (PStr concept) "103" v_mar dist_path fs_two
           (record "accepted" [del_owners v_mar; v_feb; v_jan])
           (del_owners v_mar)
           (<[dist_path :=
                FResource
                  (record "accepted" [del_owners v_mar; v_feb; v_jan])]>
              fs_two)).
  vm_refl.
Defined.

End UpdateClaims.

(** * Facts about the scan and the selection *)

Module SelectFacts.
Import UpdateExternalResources ScanSpec.

Lemma tuple_leb_total a b : tuple_leb a b = true ∨ tuple_leb b a = true.
Proof.
  unfold tuple_leb. rewrite (String.eqb_sym b.1 a.1).
  destruct (String.eqb a.1 b.1); apply String.leb_total.
Qed.

Lemma tuple_leb_trans a b c :
  tuple_leb a b = true → tuple_leb b c = true → tuple_leb a c = true.
Proof.
  unfold tuple_leb. destruct a as [a1 a2], b as [b1 b2], c as [c1 c2].
  simpl.
  destruct (String.eqb_spec a1 b1) as [Eab|Nab],
           (String.eqb_spec b1 c1) as [Ebc|Nbc],
           (String.eqb_spec a1 c1) as [Eac|Nac];
    intros H1 H2; subst; try done.
  - eauto using StrOrd.leb_trans.
  - destruct Nab. by apply String.leb_antisym.
  - eauto using StrOrd.leb_trans.
Qed.

Lemma tuple_leb_antisym a b :
  tuple_leb a b = true → tuple_leb b a = true → a = b.
Proof.
  unfold tuple_leb. rewrite (String.eqb_sym b.1 a.1).
  destruct a as [a1 a2], b as [b1 b2]. simpl.
  destruct (String.eqb_spec a1 b1) as [->|Hne]; intros H1 H2.
  - f_equal. by apply String.leb_antisym.
  - destruct Hne. by apply String.leb_antisym.
Qed.

Lemma tuple_leb_fst a b : tuple_leb a b = true → String.leb a.1 b.1 = true.
Proof.
  unfold tuple_leb. destruct (String.eqb_spec a.1 b.1) as [->|]; [|done].
  intros _. apply StrOrd.leb_refl.
Qed.

(** [min] returns an element that is below all of them *)
Lemma foldl_min_spec (l : list string) x :
  let m := foldl (λ m y, if String.ltb y m then y else m) x l in
  String.leb m x = true ∧ Forall (λ y, String.leb m y = true) l
  ∧ m ∈ x :: l.
Proof.
  revert x. induction l as [|y l IH]; intros x; simpl.
  - split_and!; [apply StrOrd.leb_refl|constructor|left].
  - rewrite StrOrd.ltb_leb.
    destruct (String.leb x y) eqn:Hxy; simpl.
    + destruct (IH x) as (H1 & H2 & H3). split_and!; [done| |].
      * constructor; [|done]. eauto using StrOrd.leb_trans.
      * apply elem_of_cons in H3 as [->|H3]; [left|by do 2 right].
    + destruct (IH y) as (H1 & H2 & H3).
      apply StrOrd.leb_false_flip in Hxy. split_and!.
      * eauto using StrOrd.leb_trans.
      * by constructor.
      * by right.
Qed.

Lemma py_min_spec (l : list string) :
  l ≠ [] →
  ∃ m, py_min l = inr m ∧ m ∈ l ∧ Forall (λ y, String.leb m y = true) l.
Proof.
  destruct l as [|x l]; [done|]. intros _. eexists. split; [done|].
  destruct (foldl_min_spec l x) as (H1 & H2 & H3). split; [done|].
  by constructor.
Qed.

Lemma min_created_spec (vs : list Version) :
  vs ≠ [] →
  py_min (created <$> vs) = inr (min_created vs)
  ∧ min_created vs ∈ created <$> vs
  ∧ Forall (λ v, String.leb (min_created vs) (created v) = true) vs.
Proof.
  intros Hne. unfold min_created.
  destruct (py_min_spec (created <$> vs)) as (m & -> & Hin & Hall).
  { by destruct vs. }
  split_and!; [done..|]. by rewrite Forall_fmap in Hall.
Qed.

Lemma oldest_key_spec (kv : string * list Version) :
  kv.2 ≠ [] → oldest_key kv = inr (key_of kv).
Proof.
  intros Hne. unfold oldest_key, key_of.
  by destruct (min_created_spec kv.2 Hne) as (-> & _).
Qed.

Lemma with_keys_spec (items : list (string * list Version)) :
  Forall (λ kv, kv.2 ≠ []) items →
  with_keys items = inr ((λ kv, (key_of kv, kv)) <$> items).
Proof.
  induction 1 as [|kv items Hkv _ IH]; [done|].
  cbn [with_keys]. by rewrite oldest_key_spec, IH.
Qed.

(** sorting decorated items is decorating the sorted items *)
Lemma sort_insert_fmap {A B K} (leb : K → K → bool) (key : B → K)
    (g : A → B) rev x (l : list A) :
  sort_insert leb key rev (g x) (g <$> l)
  = g <$> sort_insert leb (key ∘ g) rev x l.
Proof.
  induction l as [|y l IH]; csimpl; [done|].
  unfold goes_before. simpl.
  destruct rev;
    match goal with |- context [negb ?b] => destruct b end;
    csimpl; by rewrite ?IH.
Qed.

Lemma py_sort_fmap {A B K} (leb : K → K → bool) (key : B → K)
    (g : A → B) rev (l : list A) :
  py_sort leb key rev (g <$> l) = g <$> py_sort leb (key ∘ g) rev l.
Proof.
  induction l as [|x l IH]; csimpl; [done|].
  unfold py_sort in *. by rewrite IH, sort_insert_fmap.
Qed.

Lemma oldest_updated_resources_spec (items : list (string * list Version)) :
  Forall (λ kv, kv.2 ≠ []) items →
  oldest_updated_resources items
  = inr (py_sort tuple_leb key_of false items).
Proof.
  intros Hne. unfold oldest_updated_resources.
  rewrite with_keys_spec by done. cbn [bind ret].
  rewrite (py_sort_fmap tuple_leb fst (λ kv, (key_of kv, kv))).
  rewrite <-list_fmap_compose. f_equal. apply list_fmap_id.
Qed.

(** [dict] of a list without repeated keys is that list *)
Lemma dict_set_fresh {V} k (v : V) d :
  k ∉ d.*1 → dict_set k v d = d ++ [(k, v)].
Proof.
  induction d as [|[k' v'] d IH]; csimpl; [done|].
  intros Hnin. apply not_elem_of_cons in Hnin as [Hne Hnin].
  destruct (String.eqb_spec k' k) as [->|_]; [done|]. by rewrite IH.
Qed.

Lemma py_dict_from {V} (acc l : list (string * V)) :
  NoDup (acc ++ l).*1 →
  foldl (λ d kv, dict_set kv.1 kv.2 d) acc l = acc ++ l.
Proof.
  revert acc. induction l as [|[k v] l IH]; intros acc Hnd; simpl.
  - by rewrite app_nil_r.
  - rewrite dict_set_fresh.
    + rewrite IH; rewrite <-(assoc_L (++)); done.
    + rewrite fmap_app in Hnd. apply NoDup_app in Hnd as (_ & Hd & _).
      intros Hin. apply (Hd _ Hin). left.
Qed.

Lemma py_dict_nodup {V} (l : list (string * V)) :
  NoDup l.*1 → py_dict l = l.
Proof. intros Hnd. unfold py_dict. by rewrite py_dict_from. Qed.

Lemma slice_to_take {A} (n : Z) (l : list A) :
  (0 ≤ n)%Z → slice_to n l = take (Z.to_nat n) l.
Proof.
  intros Hn. unfold slice_to.
  by apply Z.leb_le in Hn as ->.
Qed.

(** the filter of line 184 does not change the test of line 188 *)
Lemma auto_update_prefix k :
  String.prefix "origin/auto-update-" (auto_update_branch k) = true.
Proof. by destruct k. Qed.

Lemma marker_test git_branch_r (kv : string * list Version) :
  bool_decide (auto_update_branch kv.1
               ∈ List.filter (String.prefix "origin/auto-update-")
                             git_branch_r)
  = pending git_branch_r kv.
Proof.
  unfold pending. apply bool_decide_ext.
  rewrite !list_elem_of_In, filter_In.
  pose proof (auto_update_prefix kv.1). tauto.
Qed.

Lemma limited_updated_resources_spec n git_branch_r
    (items : list (string * list Version)) :
  (0 ≤ n)%Z → NoDup items.*1 → Forall (λ kv, kv.2 ≠ []) items →
  limited_updated_resources n git_branch_r items
  = inr (List.filter (λ kv, negb (pending git_branch_r kv))
           (take (Z.to_nat n) (py_sort tuple_leb key_of false items))).
Proof.
  intros Hn Hnd Hne. unfold limited_updated_resources.
  rewrite oldest_updated_resources_spec by done. cbn [bind ret].
  rewrite slice_to_take by done.
  rewrite py_dict_nodup.
  - f_equal. apply filter_ext. intros kv. by rewrite marker_test.
  - rewrite fmap_take. eapply sublist_NoDup; [|apply sublist_take].
    by rewrite py_sort_perm.
Qed.

Lemma NoDup_fst_eq {V} (l : list (string * V)) x y :
  NoDup l.*1 → x ∈ l → y ∈ l → x.1 = y.1 → x = y.
Proof.
  induction l as [|z l IH]; csimpl; intros Hnd Hx Hy Hxy.
  { by apply not_elem_of_nil in Hx. }
  apply NoDup_cons in Hnd as [Hz Hnd].
  apply elem_of_cons in Hx as [->|Hx], Hy as [->|Hy]; [done| | |by apply IH].
  - destruct Hz. rewrite Hxy. by apply list_elem_of_fmap_2.
  - destruct Hz. rewrite <-Hxy. by apply list_elem_of_fmap_2.
Qed.

Lemma oldest_sorted (items : list (string * list Version)) :
  StronglySorted (λ a b, tuple_leb (key_of a) (key_of b) = true)
                 (py_sort tuple_leb key_of false items).
Proof.
  apply (py_sort_sorted tuple_leb key_of false tuple_leb_total
           tuple_leb_trans).
Qed.

(** the sorted list does not depend on the order of the items *)
Lemma oldest_perm_eq (items items' : list (string * list Version)) :
  NoDup items.*1 → items' ≡ₚ items →
  py_sort tuple_leb key_of false items'
  = py_sort tuple_leb key_of false items.
Proof.
  intros Hnd Hp.
  eapply StronglySorted_unique_strong; [|apply oldest_sorted..|].
  - intros x y Hx Hy Hxy Hyx.
    rewrite py_sort_perm, Hp in Hx. rewrite py_sort_perm in Hy.
    apply (NoDup_fst_eq items); [done..|].
    pose proof (tuple_leb_antisym _ _ Hxy Hyx) as Hk.
    unfold key_of in Hk. by simplify_eq.
  - by rewrite !py_sort_perm.
Qed.

End SelectFacts.

(** * The scan of one hit, and the selection of the updates *)

Module SelectClaims.
Import UpdateExternalResources ScanSpec SelectFacts ScanExamples.





(** C6.  For a mapping from resource ids to lists of new versions that
    are not empty, and a count that is not negative: the resources are
    sorted ascending by the pair of the least [created] of their new
    versions and their id; the first [max_resource_count] of them are
    taken; of these, the ones for which the branch
    [auto-update-<resource_id>] of [origin] is among the remote
    branches are removed.  So no more than [max_resource_count]
    resources are returned, the least [created] of a returned resource
    is not above the one of a resource the cap has excluded, and the
    result is the same for every order of the input. *)
Theorem limited_updated_resources_oldest_first (max_resource_count : Z)
    git_branch_r (items : list (string * list Version)) :
  (0 ≤ max_resource_count)%Z →
  NoDup items.*1 →
  Forall (λ kv, kv.2 ≠ []) items →
  ∃ oldest selected,
    oldest_updated_resources items = inr oldest
    ∧ limited_updated_resources max_resource_count git_branch_r items
      = inr selected
    ∧ Forall (λ kv, oldest_key kv = inr (key_of kv)
                    ∧ min_created kv.2 ∈ created <$> kv.2
                    ∧ Forall (λ v, String.leb (min_created kv.2) (created v)
                                   = true) kv.2) items
    ∧ oldest ≡ₚ items
    ∧ StronglySorted (λ a b, tuple_leb (key_of a) (key_of b) = true) oldest
    ∧ selected
      = List.filter (λ kv, negb (pending git_branch_r kv))
                    (take (Z.to_nat max_resource_count) oldest)
    ∧ (length selected ≤ Z.to_nat max_resource_count)%nat
    ∧ (∀ kv kv',
         kv ∈ selected →
         kv' ∈ drop (Z.to_nat max_resource_count) oldest →
         String.leb (min_created kv.2) (min_created kv'.2) = true)
    ∧ (∀ items',
         items' ≡ₚ items →
         oldest_updated_resources items' = inr oldest
         ∧ limited_updated_resources max_resource_count git_branch_r items'
           = inr selected).
Proof.
  intros Hn Hnd Hne.
  exists (py_sort tuple_leb key_of false items). eexists.
  split; [by apply oldest_updated_resources_spec|].
  split; [by apply limited_updated_resources_spec|].
  split_and!.
  - eapply Forall_impl; [exact Hne|]. intros kv Hkv.
    destruct (min_created_spec kv.2 Hkv) as (_ & Hin & Hall).
    split_and!; [by apply oldest_key_spec|done..].
  - apply py_sort_perm.
  - apply oldest_sorted.
  - done.
  - etransitivity; [apply filter_length_le|].
    rewrite length_take. lia.
  - intros kv kv' Hkv Hkv'.
    apply list_elem_of_In, filter_In in Hkv as [Hkv _].
    apply list_elem_of_In in Hkv.
    pose proof (oldest_sorted items) as Hs.
    rewrite <-(take_drop (Z.to_nat max_resource_count)) in Hs.
    pose proof (StronglySorted_app_1_elem_of _ _ _ _ _ Hs Hkv Hkv') as Hle.
    by apply tuple_leb_fst in Hle.
  - intros items' Hp.
    assert (NoDup items'.*1) by (by rewrite Hp).
    assert (Forall (λ kv, kv.2 ≠ []) items') by (by rewrite Hp).
    rewrite oldest_updated_resources_spec,
      limited_updated_resources_spec by done.
    by rewrite (oldest_perm_eq items items').
Qed.

Lemma limited_updated_resources_oldest_first_witness :
  ∃ oldest selected,
    oldest_updated_resources four_updated = inr oldest
    ∧ limited_updated_resources default_max_resource_count branches
                                four_updated = inr selected
    ∧ oldest.*1 = ["r-b"; "r-a"; "r-c"; "r-d"]
    ∧ selected.*1 = ["r-a"; "r-c"].
Proof.
  destruct (limited_updated_resources_oldest_first
              default_max_resource_count branches four_updated)
    as (oldest & selected & Ho & Hs & _).
  - vm_compute. discriminate.
  - apply (bool_decide_unpack _). by vm_compute.
  - repeat constructor; discriminate.
  - exists oldest, selected. split; [exact Ho|]. split; [exact Hs|].
    vm_compute in Ho. vm_compute in Hs.
    injection Ho as <-. injection Hs as <-. by split.
Defined.

End SelectClaims.

(** * Facts about the JSON projection *)

Module JsonFacts.
Import GenerateCollectionRdf GenerateSpec.

(** induction on documents, through their lists and dicts *)
Lemma pyval_ind' (P : pyval → Prop) :
  P PNone → (∀ b, P (PBool b)) → (∀ z, P (PInt z)) →
  (∀ f, P (PFloat f)) → (∀ s, P (PStr s)) → (∀ d, P (PDatetime d)) →
  (∀ l, Forall P l → P (PList l)) →
  (∀ d, Forall (λ kv, P kv.2) d → P (PDict d)) →
  ∀ v, P v.
Proof.
  intros HN HB HI HF HS HD HL HM.
  fix IH 1. intros [| b | z | f | s | d | l | d].
  - exact HN.
  - apply HB.
  - apply HI.
  - apply HF.
  - apply HS.
  - apply HD.
  - apply HL. induction l as [|x l IHl]; constructor; [apply IH|exact IHl].
  - apply HM. induction d as [|[k x] d IHd]; constructor;
      [apply IH|exact IHd].
Qed.

Lemma remap_list visit l :
  remap visit (PList l) = PList (map (visit_item visit) l).
Proof. done. Qed.

Lemma remap_dict visit d :
  remap visit (PDict d)
  = PDict (map (λ kv, (kv.1, visit_item visit kv.2)) d).
Proof. done. Qed.


Lemma convert_for_json_float f :
  convert_for_json (PFloat f)
  = match f with
    | S754_infinity true => VItem (PStr "-inf")
    | S754_infinity false => VItem (PStr "inf")
    | _ => VTrue
    end.
Proof. by destruct f as [[]|[]| |[] ? ?]. Qed.

Lemma convert_for_json_container v :
  match v with PFloat _ | PDatetime _ => False | _ => True end →
  convert_for_json v = VTrue.
Proof. by destruct v. Qed.

(** [json.dump] of a list and of a dict, item by item *)











End JsonFacts.

(** * The JSON projection of the catalog *)

Module JsonClaims.
Import GenerateCollectionRdf GenerateSpec JsonFacts GenerateExamples.

Example isoformat_example :
  isoformat (Datetime 2024 1 5 3 4 5 0) = "2024-01-05T03:04:05"
  ∧ isoformat (Datetime 2024 11 25 13 4 5 1200)
    = "2024-11-25T13:04:05.001200".
Proof. by vm_compute. Qed.



End JsonClaims.

(** * Facts about the aggregation *)

Module GenerateFacts.
Import GenerateCollectionRdf GenerateSpec.

(** ** [resolve] *)

Lemma resolve_canonical pb vid st :
  resolve false pb vid st = inr (InGhPages vid, st).
Proof. done. Qed.

Lemma resolve_preview_missing pb vid st :
  rdf_at (InPreview pb vid) (wt st) = None →
  resolve true pb vid st = inr (InPreview pb vid, st).
Proof.
  unfold resolve, rdf_at. intros H.
  destruct (dir_at _ _) as [d|]; [|done]. simpl in H. by rewrite H.
Qed.

(** a version that the preview holds is moved to the update directory
    and read there *)
Lemma resolve_preview_found pb vid st d c :
  dir_at (InPreview pb vid) (wt st) = Some d →
  rdf_yaml d = Some c →
  gh_pages_update (wt st) !! vid = None →
  ∃ st', resolve true pb vid st = inr (InUpdate vid, st')
         ∧ dir_at (InUpdate vid) (wt st') = Some d
         ∧ rdf_at (InPreview pb vid) (wt st') = None
         ∧ (∀ vid', vid' ≠ vid →
              dir_at (InPreview pb vid') (wt st')
              = dir_at (InPreview pb vid') (wt st))
         ∧ gh_pages (wt st') = gh_pages (wt st)
         ∧ processed_gh_pages_previews st'
           = processed_gh_pages_previews st ++ [pb]
         ∧ attachments st' = attachments st
         ∧ n_accepted st' = n_accepted st
         ∧ n_accepted_versions st' = n_accepted_versions st.
Proof.
  intros Hd Hc Hup. unfold resolve. rewrite Hd, Hc.
  unfold move_to_update. cbn [wt set_processed]. rewrite Hup.
  eexists. split; [reflexivity|]. cbn. split_and!; try done.
  - by rewrite lookup_insert_eq.
  - unfold rdf_at. cbn. cbn in Hd. rewrite lookup_alter_eq.
    destruct (gh_pages_previews (wt st) !! pb) as [t|]; [|done].
    cbn. by rewrite lookup_insert_eq.
  - intros vid' Hne. rewrite lookup_alter_eq.
    destruct (gh_pages_previews (wt st) !! pb) as [t|]; [|done].
    cbn. by rewrite lookup_insert_ne.
Qed.

(** ** [add_version] *)

Lemma add_version_not_accepted r fp pb v acc :
  v_status v ≠ "accepted" → add_version r fp pb v acc = inr acc.
Proof.
  intros Hne. unfold add_version. destruct acc as [latest st].
  by apply String.eqb_neq in Hne as ->.
Qed.

(** a version that the preview lacks is ignored, whatever [gh-pages]
    holds *)
Lemma add_version_preview_missing r pb v latest st :
  v_status v = "accepted" →
  rdf_at (InPreview pb (version_id v)) (wt st) = None →
  add_version r true pb v (latest, st)
  = inr (latest,
         print (IgnoringMissingVersion (InPreview pb (version_id v))) st).
Proof.
  intros Hacc Hmiss. unfold add_version.
  assert (negb (String.eqb (v_status v) "accepted") = false) as ->
    by (by rewrite Hacc).
  rewrite resolve_preview_missing by done. cbn [bind].
  unfold rdf_at in Hmiss.
  destruct (dir_at _ _) as [d|]; [|done]. simpl in Hmiss.
  by rewrite Hmiss.
Qed.

Lemma add_version_first_from_preview r pb v st d content :
  v_status v = "accepted" →
  dir_at (InPreview pb (version_id v)) (wt st) = Some d →
  rdf_yaml d = Some (PDict content) →
  gh_pages_update (wt st) !! version_id v = None →
  ∃ st', add_version r true pb v (None, st)
         = inr (Some (entry_of (resource_id r) d content), st')
         ∧ rdf_at (InPreview pb (version_id v)) (wt st') = None
         ∧ (∀ vid', vid' ≠ version_id v →
              dir_at (InPreview pb vid') (wt st')
              = dir_at (InPreview pb vid') (wt st))
         ∧ processed_gh_pages_previews st'
           = processed_gh_pages_previews st ++ [pb]
         ∧ attachments st' = attachments st
         ∧ n_accepted st' = n_accepted st
         ∧ n_accepted_versions st' = n_accepted_versions st.
Proof.
  intros Hacc Hd Hc Hup.
  destruct (resolve_preview_found pb (version_id v) st d _ Hd Hc Hup)
    as (st' & Hres & Hd' & Hgone & Hother & _ & Hproc & Hatt & Hn & Hnv).
  exists st'. unfold add_version.
  assert (negb (String.eqb (v_status v) "accepted") = false) as ->
    by (by rewrite Hacc).
  rewrite Hres. cbn [bind]. rewrite Hd', Hc.
  by split_and!.
Qed.

(** ** The frame of the loop over the versions: the attachments and the
    counts are not touched *)

Lemma resolve_frame fp pb vid st loc st' :
  resolve fp pb vid st = inr (loc, st') → same_catalog st st'.
Proof.
  unfold resolve. destruct fp; [|by intros [= <- <-]].
  destruct (dir_at _ _) as [d|]; [|by intros [= <- <-]].
  destruct (rdf_yaml d); [|by intros [= <- <-]].
  unfold move_to_update. cbn [wt set_processed].
  destruct (gh_pages_update (wt st) !! vid); [done|].
  by intros [= <- <-].
Qed.

Lemma add_version_frame r fp pb v latest st latest' st' :
  add_version r fp pb v (latest, st) = inr (latest', st') →
  same_catalog st st'.
Proof.
  unfold add_version.
  destruct (negb _); [by intros [= <- <-]|].
  destruct (resolve fp pb (version_id v) st) as [e|[loc st1]] eqn:Hres;
    [done|].
  apply resolve_frame in Hres. cbn [bind].
  destruct (dir_at loc (wt st1)) as [d|]; [|by intros [= <- <-]].
  destruct (rdf_yaml d) as [c|]; [|by intros [= <- <-]].
  destruct c; try by intros [= <- <-].
  destruct latest as [latest|]; [|by intros [= <- <-]].
  destruct (dict_lookup _ latest) as [p|]; [|done].
  destruct p; try done. by intros [= <- <-].
Qed.

Lemma versions_loop_frame r fp pb vs latest st latest' st' :
  for_each (add_version r fp pb) vs (latest, st) = inr (latest', st') →
  same_catalog st st'.
Proof.
  revert latest st. induction vs as [|v vs IH]; intros latest st.
  - by intros [= <- <-].
  - cbn [for_each].
    destruct (add_version r fp pb v (latest, st)) as [e|[l1 s1]] eqn:Hv;
      [done|].
    cbn [bind]. intros Hrest. apply add_version_frame in Hv.
    apply IH in Hrest. unfold same_catalog in *.
    destruct Hv as (Ha & Hn & Hnv), Hrest as (Ha' & Hn' & Hnv').
    split_and!; congruence.
Qed.

Lemma checkout_frame origin pb st : same_catalog st (checkout origin pb st).
Proof. unfold checkout. by destruct (origin !! pb). Qed.

Lemma checkout_dir origin pb t vid st :
  origin !! pb = Some t →
  dir_at (InPreview pb vid) (wt (checkout origin pb st)) = t !! vid.
Proof.
  intros Ht. unfold checkout. rewrite Ht. cbn.
  by rewrite lookup_insert_eq.
Qed.

(** ** [file_latest] *)


(** a type whose bucket is a list: the entry is appended and counted *)
Lemma file_latest_list r_path latest st att ty bucket previous :
  type_of latest = PStr ty →
  attachments st = PDict att →
  dict_lookup ty att = Some (PList bucket) →
  dict_lookup "previous_versions" latest = Some (PList previous) →
  file_latest r_path latest st
  = inr (set_counts
           (dict_set ty (default 0 (dict_lookup ty (n_accepted st)) + 1)%Z
                     (n_accepted st))
           (dict_set ty
              (default 0 (dict_lookup ty (n_accepted_versions st))
               + 1 + Z.of_nat (length previous))%Z
              (n_accepted_versions st))
           (set_attachments
              (PDict (dict_set ty (PList (bucket ++ [PDict latest])) att))
              st)).
Proof.
  unfold type_of. intros Hty Hatt Hb Hp. unfold file_latest.
  rewrite Hty, Hatt.
  assert (dict_get ty att = PList bucket) as Hget
    by (unfold dict_get; by rewrite Hb).
  rewrite dict_get_set_eq, Hget.
  by rewrite Hp, dict_set_set.
Qed.

(** a key whose value is not a list keeps its value, and gets no count *)
Lemma file_latest_keeps r_path latest st st' att t v :
  attachments st = PDict att →
  dict_lookup t att = Some v → ¬ is_list v →
  file_latest r_path latest st = inr st' →
  ∃ att', attachments st' = PDict att'
          ∧ dict_lookup t att' = Some v
          ∧ dict_lookup t (n_accepted st') = dict_lookup t (n_accepted st)
          ∧ dict_lookup t (n_accepted_versions st')
            = dict_lookup t (n_accepted_versions st).
Proof.
  intros Hatt Ht Hnl. unfold file_latest. rewrite Hatt.
  destruct (dict_get_default _ _ latest) as [| | | |ty| | |]; try done.
  destruct (decide (ty = t)) as [->|Hne].
  - rewrite dict_get_set_eq.
    assert (dict_get t att = v) as -> by (unfold dict_get; by rewrite Ht).
    rewrite (dict_set_same t v att Ht).
    destruct v; try (intros [= <-]; by eexists); by destruct Hnl.
  - assert (dict_lookup t (dict_set ty (dict_get ty att) att) = Some v)
      as Ht' by (by rewrite dict_lookup_set_ne).
    rewrite dict_get_set_eq.
    destruct (dict_get ty att);
      try (intros [= <-]; by eexists).
    destruct (dict_lookup "previous_versions" latest) as [p|]; [|done].
    destruct p; try done. intros [= <-]. eexists. cbn.
    split; [reflexivity|]. by rewrite !dict_lookup_set_ne.
Qed.

Lemma process_resource_keeps remote_branches origin r st st' att t v :
  attachments st = PDict att →
  dict_lookup t att = Some v → ¬ is_list v →
  process_resource remote_branches origin r st = inr st' →
  ∃ att', attachments st' = PDict att'
          ∧ dict_lookup t att' = Some v
          ∧ dict_lookup t (n_accepted st') = dict_lookup t (n_accepted st)
          ∧ dict_lookup t (n_accepted_versions st')
            = dict_lookup t (n_accepted_versions st).
Proof.
  intros Hatt Ht Hnl. unfold process_resource.
  destruct (negb _); [intros [= <-]; by eexists|].
  unfold latest_version_of.
  set (fp := bool_decide _).
  set (st0 := if fp then _ else st).
  assert (same_catalog st st0) as (Ha0 & Hn0 & Hnv0).
  { subst st0. destruct fp; [apply checkout_frame|done]. }
  destruct (for_each _ _ _) as [e|[latest st1]] eqn:Hloop; [done|].
  apply versions_loop_frame in Hloop as (Ha1 & Hn1 & Hnv1).
  cbn [bind]. destruct latest as [latest|].
  - intros Hfile.
    eapply file_latest_keeps in Hfile as (att' & ? & ? & Hn2 & Hnv2);
      [|by rewrite Ha1, Ha0|done..].
    exists att'. split_and!; [done..| |]; congruence.
  - intros [= <-]. exists att. cbn. split_and!; congruence.
Qed.

Lemma resources_loop_keeps remote_branches origin rs st st' att t v :
  attachments st = PDict att →
  dict_lookup t att = Some v → ¬ is_list v →
  for_each (process_resource remote_branches origin) rs st = inr st' →
  ∃ att', attachments st' = PDict att'
          ∧ dict_lookup t att' = Some v
          ∧ dict_lookup t (n_accepted st') = dict_lookup t (n_accepted st)
          ∧ dict_lookup t (n_accepted_versions st')
            = dict_lookup t (n_accepted_versions st).
Proof.
  revert st att. induction rs as [|r rs IH]; intros st att Hatt Ht Hnl.
  - intros [= <-]. by exists att.
  - cbn [for_each].
    destruct (process_resource _ _ r st) as [e|st1] eqn:Hr; [done|].
    cbn [bind]. intros Hrest.
    eapply process_resource_keeps in Hr as (att1 & Ha1 & Ht1 & Hn1 & Hnv1);
      [|done..].
    eapply IH in Hrest as (att' & ? & ? & Hn & Hnv); [|done..].
    exists att'. split_and!; [done..| |]; congruence.
Qed.

(** the catalog that is written has the attachments of the last state *)
Lemma main_attachments template remote_branches origin rs work out :
  main template remote_branches origin rs work = inr out →
  dict_lookup "attachments" (rdf_yaml_out out)
  = Some (attachments (final out))
  ∧ for_each (process_resource remote_branches origin) rs
      {| wt := work; processed_gh_pages_previews := [];
         attachments := dict_get_default "attachments" (PDict []) template;
         n_accepted := []; n_accepted_versions := []; printed := [] |}
    = inr (final out).
Proof.
  unfold main.
  destruct (for_each _ _ _) as [e|st] eqn:Hloop; [done|]. cbn [bind].
  destruct (dict_lookup "config" _) as [c|]; [|done].
  destruct c; try done. cbn [bind ret].
  destruct (json_dump _); [done|]. cbn [bind ret].
  intros [= <-]. cbn [rdf_yaml_out final]. split; [|done].
  rewrite dict_lookup_set_ne by done. apply dict_lookup_set_eq.
Qed.

Lemma latest_version_of_frame remote_branches origin r st latest st' :
  latest_version_of remote_branches origin r st = inr (latest, st') →
  same_catalog st st'.
Proof.
  unfold latest_version_of.
  set (fp := bool_decide _).
  set (st0 := if fp then _ else st).
  assert (same_catalog st st0) as (Ha0 & Hn0 & Hnv0).
  { subst st0. destruct fp; [apply checkout_frame|done]. }
  intros Hloop. apply versions_loop_frame in Hloop as (Ha1 & Hn1 & Hnv1).
  split_and!; congruence.
Qed.

Lemma checkout_rest origin pb st :
  gh_pages_update (wt (checkout origin pb st)) = gh_pages_update (wt st)
  ∧ gh_pages (wt (checkout origin pb st)) = gh_pages (wt st)
  ∧ processed_gh_pages_previews (checkout origin pb st)
    = processed_gh_pages_previews st.
Proof. unfold checkout. by destruct (origin !! pb). Qed.

Lemma type_of_entry rid d content :
  type_of (entry_of rid d content) = type_of content.
Proof.
  unfold type_of, entry_of, dict_get_default.
  by rewrite !dict_lookup_set_ne.
Qed.

(** The versions of a resource with a preview that holds one of its two
    accepted versions: that one becomes the entry, the other one is
    ignored. *)
Lemma latest_of_two remote_branches origin r st t vp vc dp content :
  "origin/" +:+ preview_branch_of r ∈ remote_branches →
  origin !! preview_branch_of r = Some t →
  v_status vp = "accepted" → v_status vc = "accepted" →
  version_id vp ≠ version_id vc →
  versions r = [vp; vc] ∨ versions r = [vc; vp] →
  t !! version_id vp = Some dp →
  rdf_yaml dp = Some (PDict content) →
  t !! version_id vc ≫= rdf_yaml = None →
  gh_pages_update (wt st) !! version_id vp = None →
  ∃ st', latest_version_of remote_branches origin r st
         = inr (Some (entry_of (resource_id r) dp content), st')
         ∧ processed_gh_pages_previews st'
           = processed_gh_pages_previews st ++ [preview_branch_of r]
         ∧ same_catalog st st'.
Proof.
  intros Hrb Ht Hap Hac Hne Hvs Hdp Hcp Hmiss Hup.
  unfold latest_version_of. rewrite bool_decide_eq_true_2 by done.
  set (pb := preview_branch_of r) in *.
  set (st0 := checkout origin pb st).
  destruct (checkout_rest origin pb st) as (Hup0 & _ & Hproc0).
  pose proof (checkout_frame origin pb st) as (Ha0 & Hn0 & Hnv0).
  fold st0 in Hup0, Hproc0, Ha0, Hn0, Hnv0.
  assert (∀ vid, dir_at (InPreview pb vid) (wt st0) = t !! vid) as Hdir.
  { intros vid. by apply checkout_dir. }
  destruct Hvs as [-> | ->]; cbn [for_each].
  - destruct (add_version_first_from_preview r pb vp st0 dp content)
      as (st1 & -> & _ & Hother & Hproc1 & Ha1 & Hn1 & Hnv1);
      [done|by rewrite Hdir|done|by rewrite Hup0|].
    cbn [bind]. rewrite add_version_preview_missing; [|done|].
    + cbn [bind ret]. eexists. split; [reflexivity|].
      unfold same_catalog. cbn.
      split; [by rewrite Hproc1, Hproc0|]. split_and!; congruence.
    + unfold rdf_at. rewrite Hother by done. by rewrite Hdir.
  - rewrite add_version_preview_missing; [|done|].
    + cbn [bind].
      set (st0' := print _ st0).
      destruct (add_version_first_from_preview r pb vp st0' dp content)
        as (st1 & -> & _ & Hother & Hproc1 & Ha1 & Hn1 & Hnv1);
        [done|by rewrite <-Hdp, <-Hdir|done
        |by rewrite <-Hup, <-Hup0|].
      cbn [bind ret]. eexists. split; [reflexivity|].
      subst st0'. unfold same_catalog. cbn in *.
      split; [by rewrite Hproc1, Hproc0|]. split_and!; congruence.
    + unfold rdf_at. by rewrite Hdir.
Qed.

End GenerateFacts.

(** * The aggregation: where a version is read, what is filed *)

Module GenerateClaims.
Import GenerateCollectionRdf GenerateSpec GenerateFacts GenerateExamples.




(** C5, as the code has it.  A resource with a preview and two accepted
    versions, of which the preview holds one (as a mapping; the update
    directory does not have it yet) and not the other, which may be on
    [gh-pages]: when its type has a list in the attachments, one entry
    is appended to that list, made of the version of the preview, with
    an empty [previous_versions]; the other version is ignored.  The
    name of the preview is added once to the processed previews, and
    the counts of the type go up by one resource and one version. *)
Theorem process_resource_two_versions remote_branches origin r st
    t vp vc dp c att ty bucket :
  status r = "accepted" →
  "origin/" +:+ preview_branch_of r ∈ remote_branches →
  origin !! preview_branch_of r = Some t →
  v_status vp = "accepted" → v_status vc = "accepted" →
  version_id vp ≠ version_id vc →
  versions r = [vp; vc] ∨ versions r = [vc; vp] →
  t !! version_id vp = Some dp →
  rdf_yaml dp = Some (PDict c) →
  t !! version_id vc ≫= rdf_yaml = None →
  gh_pages_update (wt st) !! version_id vp = None →
  attachments st = PDict att →
  type_of c = PStr ty →
  dict_lookup ty att = Some (PList bucket) →
  ∃ st', process_resource remote_branches origin r st = inr st'
         ∧ attachments st'
           = PDict (dict_set ty
                      (PList (bucket
                              ++ [PDict (entry_of (resource_id r) dp c)]))
                      att)
         ∧ dict_lookup "previous_versions" (entry_of (resource_id r) dp c)
           = Some (PList [])
         ∧ processed_gh_pages_previews st'
           = processed_gh_pages_previews st ++ [preview_branch_of r]
         ∧ dict_lookup ty (n_accepted st')
           = Some (default 0 (dict_lookup ty (n_accepted st)) + 1)%Z
         ∧ dict_lookup ty (n_accepted_versions st')
           = Some (default 0 (dict_lookup ty (n_accepted_versions st)) + 1)%Z.
Proof.
  intros Hst Hrb Ht Hap Hac Hne Hvs Hdp Hc Hmiss Hup Hatt Hty Hb.
  destruct (latest_of_two remote_branches origin r st t vp vc dp c)
    as (st1 & Hlatest & Hproc & Ha & Hn & Hnv); [done..|].
  unfold process_resource. rewrite Hst.
  assert (negb (String.eqb "accepted" "accepted") = false) as -> by done.
  rewrite Hlatest. cbn [bind].
  rewrite (file_latest_list _ _ _ att ty bucket []);
    [|by rewrite type_of_entry|congruence|done
     |apply dict_lookup_set_eq].
  eexists. split; [reflexivity|]. cbn.
  rewrite !dict_lookup_set_eq, Hn, Hnv.
  split_and!; [done|apply dict_lookup_set_eq|done|done|].
  f_equal. lia.
Qed.

Lemma process_resource_two_versions_witness :
  ∃ st', process_resource remotes_r1 origin_r1 r1 (start work_r1) = inr st'
         ∧ attachments st'
           = PDict (dict_set "model"
                      (PList ([] ++ [PDict (entry_of (resource_id r1)
                                       (dir_of (content "model two" "model"))
                                       (content "model two" "model"))]))
                      [("model", PList [])])
         ∧ dict_lookup "previous_versions"
             (entry_of (resource_id r1)
                       (dir_of (content "model two" "model"))
                       (content "model two" "model"))
           = Some (PList [])
         ∧ processed_gh_pages_previews st'
           = processed_gh_pages_previews (start work_r1)
             ++ [preview_branch_of r1]
         ∧ dict_lookup "model" (n_accepted st')
           = Some (default 0 (dict_lookup "model"
                                (n_accepted (start work_r1))) + 1)%Z
         ∧ dict_lookup "model" (n_accepted_versions st')
           = Some (default 0 (dict_lookup "model"
                                (n_accepted_versions (start work_r1))) + 1)%Z.
Proof.
  apply (process_resource_two_versions remotes_r1 origin_r1 r1
           (start work_r1)
           {[ "v2" := dir_of (content "model two" "model") ]}
           (mkVersionRecord "accepted" "v2")
           (mkVersionRecord "accepted" "v1")
           (dir_of (content "model two" "model"))
           (content "model two" "model")
           [("model", PList [])] "model" []).
  - reflexivity.
  - apply (bool_decide_unpack _). by vm_compute.
  - by vm_compute.
  - reflexivity.
  - reflexivity.
  - discriminate.
  - by left.
  - by vm_compute.
  - reflexivity.
  - by vm_compute.
  - by vm_compute.
  - reflexivity.
  - reflexivity.
  - reflexivity.
Defined.

(** C5 as stated fails: [r1] has the accepted versions [v2], which its
    preview holds, and [v1], which only [gh-pages] holds.  The catalog
    that [main] writes has one entry for [r1], and its
    [previous_versions] is empty, not of length 1; the preview is
    reported once. *)
Lemma main_two_versions_no_previous :
  ∃ out, main template remotes_r1 origin_r1 [r1] work_r1 = inr out
         ∧ dict_lookup "attachments" (rdf_yaml_out out)
           = Some (PDict [("model", PList [PDict entry_r1])])
         ∧ dict_lookup "previous_versions" entry_r1 = Some (PList [])
         ∧ processed_previews_out out = [preview_r1].
Proof. eexists. split_and!; by vm_compute. Qed.



(** the null key reaches the catalog that is written, and the type gets
    no count *)
Lemma main_unlisted_type :
  ∃ out, main template [] ∅ [r2] work_r2 = inr out
         ∧ dict_lookup "attachments" (rdf_yaml_out out)
           = Some (PDict [("model", PList []); ("notebook", PNone)])
         ∧ dict_lookup "config" (rdf_yaml_out out)
           = Some (PDict [("id", PStr "bioimageio");
                          ("n_resources", PDict []);
                          ("n_resource_versions", PDict [])]).
Proof. eexists. split_and!; by vm_compute. Qed.

End GenerateClaims.

(** * More about [update_resource] *)

Module UpdateMore.
Import UpdateExternalResources UpdateSpec UpdateFacts Examples.

(** how a call that returns ends *)
Lemma update_resource_returns rp rid rtype rdoi vid nv rop fs out nv' fs' :
  update_resource rp rid rtype rdoi vid nv rop fs = inr (out, nv', fs') →
  (out = Blocked ∧ nv' = nv ∧ fs' = fs)
  ∨ (out = OldHit ∧ nv' = nv ∧ fs' = fs)
  ∨ (∃ w, out = Updated w ∧ nv' = after_hoist nv
          ∧ fs' = <[rop := FResource w]> fs).
Proof.
  destruct out as [| |w].
  - unfold update_resource. rewrite existing_lookup.
    destruct (existing rp rop fs) as [[r|?]|]; [|done|].
    + destruct (String.eqb (status r) "blocked"); [intros [= <- <-]; auto|].
      destruct (_ || _); [|done].
      destruct (versions r) as [|v vs] eqn:Hvs; [done|].
      rewrite <-Hvs. cbn [bind ret].
      destruct (existsb _ _); [done|].
      match goal with
      | |- context [write_resource ?res _ _ _] =>
        destruct (write_resource_spec res nv rop fs) as (w0 & -> & _)
      end. done.
    + match goal with
      | |- context [write_resource ?res _ _ _] =>
        destruct (write_resource_spec res nv rop fs) as (w0 & -> & _)
      end. done.
  - unfold update_resource. rewrite existing_lookup.
    destruct (existing rp rop fs) as [[r|?]|]; [|done|].
    + destruct (String.eqb (status r) "blocked"); [done|].
      destruct (_ || _); [|done].
      destruct (versions r) as [|v vs] eqn:Hvs; [done|].
      rewrite <-Hvs. cbn [bind ret].
      destruct (existsb _ _); [intros [= <- <-]; auto|].
      match goal with
      | |- context [write_resource ?res _ _ _] =>
        destruct (write_resource_spec res nv rop fs) as (w0 & -> & _)
      end. done.
    + match goal with
      | |- context [write_resource ?res _ _ _] =>
        destruct (write_resource_spec res nv rop fs) as (w0 & -> & _)
      end. done.
  - intros Hup. apply update_resource_updated in Hup as (-> & -> & _).
    right. right. by exists w.
Qed.

(** X1.  A call of [update_resource] that returns has written at most
    the file at [resource_output_path]: every other path, the record of
    the collection among them, holds what it held.  When the call
    returns [blocked] or [old_hit] nothing at all has changed; when it
    returns the resource, that resource is what the output path holds. *)
Theorem update_resource_writes_output_only rp rid rtype rdoi vid nv rop fs
    out nv' fs' :
  update_resource rp rid rtype rdoi vid nv rop fs = inr (out, nv', fs') →
  (∀ path, path ≠ rop → fs' !! path = fs !! path)
  ∧ match out with
    | Updated w => fs' !! rop = Some (FResource w)
    | Blocked | OldHit => fs' = fs ∧ nv' = nv
    end.
Proof.
  intros Hup.
  apply update_resource_returns in Hup
    as [(-> & -> & ->)|[(-> & -> & ->)|(w & -> & -> & ->)]]; try done.
  split.
  - intros path Hne. by rewrite lookup_insert_ne.
  - by rewrite lookup_insert_eq.
Qed.

Lemma update_resource_writes_output_only_witness :
  (∀ path, path ≠ dist_path →
     (<[dist_path :=
          FResource (record "accepted" [del_owners v_mar; v_feb; v_jan])]>
        fs_two) !! path = fs_two !! path)
  ∧ (<[dist_path :=
         FResource (record "accepted" [del_owners v_mar; v_feb; v_jan])]>
       fs_two) !! dist_path
    = Some (FResource (record "accepted" [del_owners v_mar; v_feb; v_jan])).
Proof.
  apply (update_resource_writes_output_only collection_path concept
           (PStr "model") (PStr concept) "103" v_mar dist_path fs_two
           (Updated (record "accepted" [del_owners v_mar; v_feb; v_jan]))
           (del_owners v_mar)).
  vm_refl.
Defined.





Lemma update_resource_new rp rid rtype rdoi vid nv rop fs :
  existing rp rop fs = None →
  update_resource rp rid rtype rdoi vid nv rop fs
  = inr (write_resource
           {| status := "accepted"; versions := [NewVersion];
              r_id := Some rid; r_doi := Some rdoi; r_type := Some rtype;
              r_owners := None |} nv rop fs).
Proof.
  intros Hex. unfold update_resource. by rewrite existing_lookup, Hex.
Qed.

Global Instance mergeable_dec r : Decision (mergeable r).
Proof. unfold mergeable. apply _. Defined.


(** all fields of the record that is written *)
Lemma write_resource_fields (res : resource_of vref) nv rop fs :
  ∃ w, write_resource res nv rop fs
       = (Updated w, after_hoist nv, <[rop := FResource w]> fs)
       ∧ status w = status res
       ∧ versions w = deref (after_hoist nv) <$> versions res
       ∧ r_id w = r_id res
       ∧ r_type w = r_type res
       ∧ r_doi w = match r_doi res with
                   | Some d => if truthy d then Some d else None
                   | None => None
                   end
       ∧ r_owners w = match owners nv with
                      | Some o => Some o
                      | None => r_owners res
                      end.
Proof.
  unfold write_resource, after_hoist.
  destruct (owners nv) as [o|]; simpl;
    destruct (r_doi res) as [d|] eqn:Hd; simpl; try destruct (truthy d);
    eexists; (split; [reflexivity|]); simpl; rewrite ?Hd; done.
Qed.

(** X3.  When the resource has no record, neither in the output nor in
    the collection, [update_resource] writes a new record to the output
    path: accepted, with the given id and type, with the new version as
    its only version, with the owners of the new version (which the
    version loses), and with the given doi unless that is empty or
    null, in which case the record has no doi. *)
Theorem update_resource_creates rp rid rtype rdoi vid nv rop fs :
  existing rp rop fs = None →
  ∃ w, update_resource rp rid rtype rdoi vid nv rop fs
       = inr (Updated w, after_hoist nv, <[rop := FResource w]> fs)
       ∧ status w = "accepted"
       ∧ versions w = [after_hoist nv]
       ∧ r_id w = Some rid
       ∧ r_type w = Some rtype
       ∧ r_doi w = (if truthy rdoi then Some rdoi else None)
       ∧ r_owners w = owners nv.
Proof.
  intros Hex. rewrite update_resource_new by done.
  unfold write_resource, after_hoist.
  destruct (owners nv) as [o|]; cbn; destruct (truthy rdoi);
    eexists; by split_and!.
Qed.

Lemma update_resource_creates_witness :
  ∃ w, update_resource collection_path concept (PStr "model") (PStr "")
                       "103" v_mar dist_path ∅
       = inr (Updated w, after_hoist v_mar, <[dist_path := FResource w]> ∅)
       ∧ status w = "accepted"
       ∧ versions w = [after_hoist v_mar]
       ∧ r_id w = Some concept
       ∧ r_type w = Some (PStr "model")
       ∧ r_doi w = (if truthy (PStr "") then Some (PStr "") else None)
       ∧ r_owners w = owners v_mar.
Proof.
  apply (update_resource_creates collection_path concept (PStr "model")
           (PStr "") "103" v_mar dist_path ∅).
  reflexivity.
Defined.

(** X4.  On an accepted or pending record whose versions are sorted by
    [created], latest first, a new version that is not known is put into
    the list without moving the others: it goes behind the versions that
    were created later, and in front of all versions that were not, so
    in front of the ones with the same [created].  The type of the
    record becomes the given type; its status stays. *)
Theorem update_resource_inserts_in_place rp rid rtype rdoi vid nv rop fs r :
  existing rp rop fs = Some (FResource r) →
  mergeable r → versions r ≠ [] →
  created_descending (versions r) →
  existsb (is_known vid nv) (versions r) = false →
  ∃ w later rest,
    update_resource rp rid rtype rdoi vid nv rop fs
    = inr (Updated w, after_hoist nv, <[rop := FResource w]> fs)
    ∧ versions r = later ++ rest
    ∧ versions w = later ++ after_hoist nv :: rest
    ∧ Forall (λ v, String.ltb (created nv) (created v) = true) later
    ∧ Forall (λ v, String.leb (created v) (created nv) = true) rest
    ∧ r_type w = Some rtype
    ∧ status w = status r.
Proof.
  intros Hex Hm Hne Hsorted Hnew.
  rewrite (update_resource_mergeable _ _ _ _ _ _ _ _ r), Hnew by done.
  set (key := λ v : vref, created (deref nv v)).
  assert (StronglySorted (in_order String.leb key true)
                         (Known <$> versions r)) as Hks.
  { eapply StronglySorted_fmap; [|exact Hsorted]. by intros x y. }
  unfold py_sort. cbn [foldr fmap list_fmap].
  change (foldr (sort_insert String.leb key true) [] (Known <$> versions r))
    with (py_sort String.leb key true (Known <$> versions r)).
  rewrite (py_sort_id String.leb key true _ Hks).
  destruct (sort_insert_split String.leb key true NewVersion
              (Known <$> versions r)) as (l1 & l2 & Hl & Hins & H1 & H2).
  rewrite Hins.
  apply fmap_app_inv in Hl as (later & rest & -> & -> & Hvs).
  match goal with
  | |- context [write_resource ?res _ _ _] =>
    destruct (write_resource_fields res nv rop fs)
      as (w & -> & Hst & Hv & _ & Hty & _)
  end.
  exists w, later, rest. split; [done|]. split; [done|].
  cbn [versions status r_type set_type set_versions] in Hst, Hv, Hty.
  split_and!.
  - rewrite Hv, fmap_app. csimpl. by rewrite !deref_known.
  - rewrite Forall_fmap in H1. eapply Forall_impl; [exact H1|].
    intros v Hv'. unfold goes_before, key in Hv'. simpl in Hv'.
    by rewrite StrOrd.ltb_leb.
  - rewrite Hvs in Hsorted. apply StronglySorted_app_1_r in Hsorted.
    destruct rest as [|v0 rest]; [constructor|].
    simpl in H2. unfold goes_before, key in H2. simpl in H2.
    apply negb_false_iff in H2.
    apply StronglySorted_inv in Hsorted as [_ Hall].
    constructor; [done|].
    eapply Forall_impl; [exact Hall|]. intros v Hv'. simpl in Hv'.
    eauto using StrOrd.leb_trans.
  - done.
  - done.
Qed.

Lemma update_resource_inserts_in_place_witness :
  ∃ w later rest,
    update_resource collection_path concept (PStr "model") (PStr concept)
                    "104" (version "104" "02-01") dist_path fs_two
    = inr (Updated w, after_hoist (version "104" "02-01"),
           <[dist_path := FResource w]> fs_two)
    ∧ versions (record "accepted" [v_feb; v_jan]) = later ++ rest
    ∧ versions w = later ++ after_hoist (version "104" "02-01") :: rest
    ∧ Forall (λ v, String.ltb (created (version "104" "02-01")) (created v)
                   = true) later
    ∧ Forall (λ v, String.leb (created v) (created (version "104" "02-01"))
                   = true) rest
    ∧ r_type w = Some (PStr "model")
    ∧ status w = status (record "accepted" [v_feb; v_jan]).
Proof.
  apply (update_resource_inserts_in_place collection_path concept
           (PStr "model") (PStr concept) "104" (version "104" "02-01")
           dist_path fs_two (record "accepted" [v_feb; v_jan])).
  - by vm_compute.
  - by left.
  - done.
  - repeat constructor.
  - by vm_compute.
Defined.

(** X5.  No record that [update_resource] writes has a doi that is
    empty or null: such a doi is removed from the record. *)
Theorem update_resource_drops_empty_doi rp rid rtype rdoi vid nv rop fs
    w nv' fs' d :
  update_resource rp rid rtype rdoi vid nv rop fs
  = inr (Updated w, nv', fs') →
  r_doi w = Some d → truthy d = true.
Proof.
  unfold update_resource. rewrite existing_lookup.
  assert (∀ res, (write_resource res nv rop fs).1.1 = Updated w →
                 r_doi w = Some d → truthy d = true) as Hwrite.
  { intros res. unfold write_resource.
    destruct (owners nv); cbn;
      (destruct (r_doi res) as [d0|] eqn:Hd0; cbn;
       [destruct (truthy d0) eqn:Ht|]; cbn; intros [= <-]; cbn;
       rewrite ?Hd0; intros; simplify_eq; done). }
  destruct (existing rp rop fs) as [[r|?]|]; [|done|].
  - destruct (String.eqb (status r) "blocked"); [done|].
    destruct (_ || _); [|done].
    destruct (versions r) as [|v vs] eqn:Hvs; [done|].
    rewrite <-Hvs. cbn [bind ret].
    destruct (existsb _ _); [done|].
    intros [= Hw]. eapply Hwrite. by rewrite Hw.
  - intros [= Hw]. eapply Hwrite. by rewrite Hw.
Qed.

Lemma update_resource_drops_empty_doi_witness :
  truthy (PStr concept) = true.
Proof.
  apply (update_resource_drops_empty_doi collection_path concept
           (PStr "model") (PStr concept) "103" v_mar dist_path fs_two
           (record "accepted" [del_owners v_mar; v_feb; v_jan])
           (del_owners v_mar)
           (<[dist_path :=
                FResource
                  (record "accepted" [del_owners v_mar; v_feb; v_jan])]>
              fs_two) (PStr concept)).
  - vm_refl.
  - reflexivity.
Defined.

End UpdateMore.

(** * More about the scan: maintainers, [updated_resources], hits, pages *)

Module ScanMoreFacts.
Import UpdateExternalResources UpdateSpec UpdateFacts ScanSpec SelectFacts.
Import ScanMore ZenodoScan Examples ScanExamples.

(** ** [strip("@")] *)

Lemma lstrip_at_starts s : starts_with_at (lstrip_at s) = false.
Proof.
  induction s as [|c s IH]; [done|]. simpl.
  destruct (Ascii.eqb_spec c "@") as [->|Hne]; [done|].
  destruct c as [[] [] [] [] [] [] [] []]; try done.
Qed.

Lemma lstrip_at_ends s :
  ends_with_at (lstrip_at s) = true → ends_with_at s = true.
Proof.
  induction s as [|c s IH]; [done|]. simpl.
  destruct (Ascii.eqb_spec c "@") as [->|Hne].
  - intros H. apply IH in H. by destruct s.
  - destruct c as [[] [] [] [] [] [] [] []]; try done.
Qed.

Lemma rev_app_starts s acc :
  starts_with_at (String.rev_app s acc)
  = match s with
    | EmptyString => starts_with_at acc
    | _ => ends_with_at s
    end.
Proof.
  revert acc. induction s as [|c s IH]; intros acc; [done|].
  simpl. rewrite IH. destruct s; [|done]. simpl.
  destruct c as [[] [] [] [] [] [] [] []]; done.
Qed.

Lemma rev_app_ends s acc :
  ends_with_at (String.rev_app s acc)
  = match acc with
    | EmptyString => starts_with_at s
    | _ => ends_with_at acc
    end.
Proof.
  revert acc. induction s as [|c s IH]; intros acc; [by destruct acc|].
  simpl. rewrite IH. destruct acc; [|done]. simpl.
  destruct c as [[] [] [] [] [] [] [] []]; done.
Qed.

Lemma strip_at_clean u :
  starts_with_at (strip_at u) = false ∧ ends_with_at (strip_at u) = false.
Proof.
  unfold strip_at, String.rev. split.
  - rewrite rev_app_starts.
    destruct (lstrip_at (String.rev_app (lstrip_at u) "")) as [|c t] eqn:Ht;
      [done|].
    rewrite <-Ht. apply not_true_iff_false. intros Hends.
    apply lstrip_at_ends in Hends. rewrite rev_app_ends in Hends.
    by rewrite lstrip_at_starts in Hends.
  - rewrite rev_app_ends. apply lstrip_at_starts.
Qed.

(** X6.  Every maintainer that [update_with_new_version] records is an
    at-sign followed by a handle that neither starts nor ends with an
    at-sign: the handles are brought to one leading [@]. *)
Theorem maintainers_have_one_at rdf h :
  h ∈ maintainers_of rdf →
  ∃ s, h = String "@" s
       ∧ starts_with_at s = false ∧ ends_with_at s = false.
Proof.
  unfold maintainers_of.
  destruct rdf as [| | | | | | |d]; try (intros H; by apply not_elem_of_nil in H).
  destruct (dict_get "maintainers" d) as [| | | | | |ms|];
    try (intros H; by apply not_elem_of_nil in H).
  destruct (forallb _ ms); [|intros H; by apply not_elem_of_nil in H].
  intros H. apply list_elem_of_omap in H as (m & _ & Hm).
  destruct m as [| | | | | | |md]; try done.
  destruct (dict_get "github_user" md) as [| | | |u| | |]; try done.
  destruct (String.eqb u ""); [done|].
  injection Hm as <-. exists (strip_at u).
  split; [done|]. apply strip_at_clean.
Qed.

Lemma maintainers_have_one_at_witness :
  ∃ s, "@fynnbe" = String "@" s
       ∧ starts_with_at s = false ∧ ends_with_at s = false.
Proof.
  apply (maintainers_have_one_at
           (PDict [("maintainers",
                    PList [PDict [("github_user", PStr "@@fynnbe@")];
                           PDict [("name", PStr "nobody")];
                           PDict [("github_user", PStr "")]])])).
  vm_compute. left.
Defined.

(** ** [updated_resources] *)

Lemma dict_append_keys_in {V} k (v : V) d :
  k ∈ d.*1 → (dict_append k v d).*1 = d.*1.
Proof.
  induction d as [|[k' vs] d IH]; csimpl; intros Hin.
  - by apply not_elem_of_nil in Hin.
  - destruct (String.eqb_spec k' k) as [->|Hne]; csimpl; [done|].
    apply elem_of_cons in Hin as [?|Hin]; [congruence|].
    by rewrite IH.
Qed.

Lemma dict_append_keys_new {V} k (v : V) d :
  k ∉ d.*1 → (dict_append k v d).*1 = d.*1 ++ [k].
Proof.
  induction d as [|[k' vs] d IH]; csimpl; intros Hin; [done|].
  apply not_elem_of_cons in Hin as [Hne Hin].
  destruct (String.eqb_spec k' k) as [->|_]; csimpl; [done|].
  by rewrite IH.
Qed.

Lemma dict_append_lookup {V} k (v : V) d :
  dict_lookup k (dict_append k v d)
  = Some (default [] (dict_lookup k d) ++ [v]).
Proof.
  induction d as [|[k' vs] d IH]; simpl.
  - by rewrite String.eqb_refl.
  - destruct (String.eqb k' k) eqn:E; simpl; by rewrite E.
Qed.

Lemma dict_append_lookup_ne {V} k k' (v : V) d :
  k ≠ k' → dict_lookup k' (dict_append k v d) = dict_lookup k' d.
Proof.
  intros Hne. induction d as [|[k0 vs] d IH]; simpl.
  - by apply String.eqb_neq in Hne as ->.
  - destruct (String.eqb k0 k) eqn:E; simpl; [|by rewrite IH].
    apply String.eqb_eq in E as ->.
    by apply String.eqb_neq in Hne as ->.
Qed.

Lemma dict_append_nonempty {V} k (v : V) d :
  Forall (λ kv, kv.2 ≠ []) d → Forall (λ kv, kv.2 ≠ []) (dict_append k v d).
Proof.
  induction 1 as [|[k' vs] d Hkv Hd IH]; simpl.
  - by repeat constructor.
  - destruct (String.eqb k' k); constructor; simpl in *; try done.
    by destruct vs.
Qed.

Lemma dict_append_appended_only k v d :
  appended_only d → appended_only (dict_append k v d).
Proof.
  intros [Hnd Hne]. split; [|by apply dict_append_nonempty].
  destruct (decide (k ∈ d.*1)) as [Hin|Hin].
  - by rewrite dict_append_keys_in.
  - rewrite dict_append_keys_new by done.
    apply NoDup_app. split_and!; [done| |apply NoDup_singleton].
    intros x Hx ->%list_elem_of_singleton. done.
Qed.

(** X7.  [update_with_new_version] sets the maintainers of the new
    version and appends the version to the list of its resource, which
    is made when the resource has none yet; the other resources keep
    their lists.  The mapping keeps one entry for a resource, and no
    list is empty. *)
Theorem update_with_new_version_appends nv rid rdf upd :
  appended_only upd →
  let '(nv', upd') := update_with_new_version nv rid rdf upd in
  nv' = set_maintainers (maintainers_of rdf) nv
  ∧ dict_lookup rid upd' = Some (default [] (dict_lookup rid upd) ++ [nv'])
  ∧ (∀ k, k ≠ rid → dict_lookup k upd' = dict_lookup k upd)
  ∧ appended_only upd'.
Proof.
  intros Hwf. unfold update_with_new_version. split_and!.
  - done.
  - apply dict_append_lookup.
  - intros k Hk. by apply dict_append_lookup_ne.
  - by apply dict_append_appended_only.
Qed.

Lemma update_with_new_version_appends_witness :
  let '(nv', upd') :=
    update_with_new_version v_mar "r-a" PNone four_updated in
  nv' = set_maintainers (maintainers_of PNone) v_mar
  ∧ dict_lookup "r-a" upd'
    = Some (default [] (dict_lookup "r-a" four_updated) ++ [nv'])
  ∧ (∀ k, k ≠ "r-a" → dict_lookup k upd' = dict_lookup k four_updated)
  ∧ appended_only upd'.
Proof.
  apply (update_with_new_version_appends v_mar "r-a" PNone four_updated).
  split.
  - apply (bool_decide_unpack _). by vm_compute.
  - repeat constructor; discriminate.
Defined.

End ScanMoreFacts.

(** * The scan: one hit, the pages, [main] *)

Module ScanPagesFacts.
Import UpdateExternalResources UpdateSpec UpdateFacts ScanSpec SelectFacts.
Import ScanMore ZenodoScan ScanPages UpdateMain UpdateMore ScanMoreFacts.
Import Examples ScanExamples.

Lemma for_each_app {A S} (body : A → S → result S) l1 l2 s :
  for_each body (l1 ++ l2) s
  = bind (for_each body l1 s) (for_each body l2).
Proof.
  revert s. induction l1 as [|x l1 IH]; intros s; simpl; [done|].
  destruct (body x s); simpl; [done|]. apply IH.
Qed.

(** ** One hit *)

Section hit.
Context (requests_get : string → result string).
Context (yaml_load : string → result pyval).
Context (collection dist : string).

Local Abbreviation process_hit :=
  (process_hit requests_get yaml_load collection dist).
Local Abbreviation fetch_rdf := (fetch_rdf requests_get yaml_load).

Local Abbreviation call_of := (call_of collection dist).

Lemma after_hoist_new h d :
  after_hoist (new_version_of h d) = del_owners (new_version_of h d).
Proof. done. Qed.

Lemma process_hit_cases h fs upd out st' :
  process_hit h (fs, upd, out) = inr st' →
  ∃ d, fetch_rdf h = inr d
       ∧ (((call_of h d fs = inr (Blocked, new_version_of h d, fs)
            ∨ call_of h d fs = inr (OldHit, new_version_of h d, fs))
           ∧ st' = (fs, upd, out ++ printed d))
          ∨ (∃ w, call_of h d fs
                  = inr (Updated w, after_hoist (new_version_of h d),
                         <[output_path dist h := FResource w]> fs)
                  ∧ st' = (<[output_path dist h := FResource w]> fs,
                           dict_append (conceptdoi h) (appended h d) upd,
                           out ++ printed d))).
Proof.
  unfold UpdateExternalResources.process_hit.
  destruct (fetch_rdf h) as [e|d]; [done|]. cbn [bind].
  fold (record_path collection h) (output_path dist h) (call_of h d fs).
  destruct (call_of h d fs) as [e|[[res nv'] fs']] eqn:Hcall; [done|].
  cbn [bind]. intros Hst. exists d. split; [done|].
  apply update_resource_returns in Hcall as Hret.
  destruct Hret as [(-> & -> & ->)|[(-> & -> & ->)|(w & -> & -> & ->)]];
    unfold ret in Hst; injection Hst as <-.
  - left. auto.
  - left. auto.
  - right. by exists w.
Qed.





(** what a call that writes leaves of the versions that were there *)
Lemma update_resource_versions rp rid rtype rdoi vid nv rop fs w nv' fs' :
  update_resource rp rid rtype rdoi vid nv rop fs
  = inr (Updated w, nv', fs') →
  versions w ≡ₚ after_hoist nv
                :: match existing rp rop fs with
                   | Some (FResource r) => versions r
                   | _ => []
                   end.
Proof.
  unfold update_resource. rewrite existing_lookup.
  destruct (existing rp rop fs) as [[r|?]|]; [|done|].
  - destruct (String.eqb (status r) "blocked"); [done|].
    destruct (_ || _); [|done].
    destruct (versions r) as [|v vs] eqn:Hvs; [done|].
    rewrite <-Hvs. cbn [bind ret].
    destruct (existsb (is_known vid nv) (versions r)); [done|].
    match goal with
    | |- context [write_resource ?res _ _ _] =>
      destruct (write_resource_spec res nv rop fs)
        as (w0 & -> & _ & Hv & _)
    end.
    intros [= <- <- <-]. rewrite Hv. apply inserted_perm.
  - match goal with
    | |- context [write_resource ?res _ _ _] =>
      destruct (write_resource_spec res nv rop fs)
        as (w0 & -> & _ & Hv & _)
    end.
    intros [= <- <- <-]. by rewrite Hv.
Qed.

(** two resources have two records in the output *)
Lemma output_path_inj h k :
  output_path dist h = dist +:+ "/" +:+ k +:+ "/resource.yaml" →
  conceptdoi h = k.
Proof.
  unfold output_path. intros H.
  apply (inj (String.app dist)), (inj (String.app "/")) in H.
  by apply string_app_inj_r in H.
Qed.

(** ** The loop over the hits *)

Lemma for_each_inv {A S} (body : A → S → result S) (I : S → Prop) l s s' :
  (∀ x s s', x ∈ l → I s → body x s = inr s' → I s') →
  I s → for_each body l s = inr s' → I s'.
Proof.
  revert s. induction l as [|x l IH]; intros s Hstep Hs.
  - by intros [= <-].
  - cbn [for_each]. destruct (body x s) as [e|s1] eqn:Hx; [done|].
    cbn [bind]. apply IH.
    + intros y t t' Hy. apply Hstep. by right.
    + eapply Hstep; [left|done..].
Qed.

End hit.


(** ** The pages *)

Section pages.
Context (zenodo_get : nat → result response).
Context (requests_get : string → result string).
Context (yaml_load : string → result pyval).
Context (collection dist : string).

Local Abbreviation process_hit :=
  (process_hit requests_get yaml_load collection dist).
Local Abbreviation scan_pages :=
  (scan_pages zenodo_get requests_get yaml_load collection dist).
Local Abbreviation update_from_zenodo :=
  (update_from_zenodo zenodo_get requests_get yaml_load collection dist).

(** what holds before the scan and is kept by every hit of every page
    that is gone through holds after the scan *)
Lemma scan_pages_inv (I : scan_state → Prop) pages log st log' st' :
  (∀ page r h s s',
     page ∈ pages → zenodo_get page = inr r → h ∈ page_hits r →
     I s → process_hit h s = inr s' → I s') →
  I st → scan_pages pages log st = inr (log', st') → I st'.
Proof.
  revert log st. induction pages as [|page pages IH]; intros log st Hstep Hst.
  - by intros [= _ <-].
  - cbn [ZenodoScan.scan_pages].
    destruct (zenodo_get page) as [e|r] eqn:Hr; [done|]. cbn [bind].
    destruct (negb _); [by intros [= _ <-]|].
    destruct (page_hits r) as [|h hs] eqn:Hhits; [by intros [= _ <-]|].
    destruct (for_each process_hit (h :: hs) st) as [e|st1] eqn:Hloop;
      [done|].
    cbn [bind]. apply IH.
    + intros p r' h' s s' Hp. apply Hstep. by right.
    + eapply (for_each_inv _ I); [|exact Hst|exact Hloop].
      intros x s s' Hx. eapply Hstep; [left|done|by rewrite Hhits].
Qed.


(** X10.  What the scan reports is what it has written.  The mapping
    of the updates, filled from empty, has one entry for a resource and
    no empty list; and for every resource in it, the output holds the
    record of that resource, accepted or pending, and every version
    that is reported for the resource is listed in that record. *)
Theorem update_from_zenodo_reports_written fs log fs' upd' out :
  update_from_zenodo [] fs = inr (log, (fs', upd', out)) →
  appended_only upd'
  ∧ ∀ k vs,
      dict_lookup k upd' = Some vs →
      ∃ w, output_record dist k fs' = Some (FResource w)
           ∧ mergeable w
           ∧ ∀ v, v ∈ vs → listed v (versions w).
Proof.
  intros Hscan.
  change (appended_only (fs', upd', out).1.2
          ∧ ∀ k vs,
              dict_lookup k (fs', upd', out).1.2 = Some vs →
              ∃ w, output_record dist k (fs', upd', out).1.1
                   = Some (FResource w)
                   ∧ mergeable w
                   ∧ ∀ v, v ∈ vs → listed v (versions w)).
  eapply (scan_pages_inv
            (λ s, appended_only s.1.2
                  ∧ ∀ k vs,
                      dict_lookup k s.1.2 = Some vs →
                      ∃ w, output_record dist k s.1.1 = Some (FResource w)
                           ∧ mergeable w
                           ∧ ∀ v, v ∈ vs → listed v (versions w))
            pages_1_to_9 [] (fs, [], []));
    [| |exact Hscan].
  2:{ split; [|done]. split; constructor. }
  intros page r h [[fs0 upd0] out0] s' _ _ _ [Hwf Hinv] Hstep.
  cbn [fst snd] in Hwf, Hinv.
  apply process_hit_cases in Hstep
    as (d & _ & [[_ ->]|(w & Hcall & ->)]); [done|].
  cbn [fst snd]. split; [by apply dict_append_appended_only|].
  unfold ScanPages.call_of in Hcall.
  pose proof (update_resource_versions _ _ _ _ _ _ _ _ _ _ _ Hcall) as Hvs.
  apply update_resource_updated in Hcall as (_ & _ & Hm & Hin & _).
  intros k vs. destruct (decide (conceptdoi h = k)) as [<-|Hne].
  - rewrite dict_append_lookup. intros [= <-].
    exists w. unfold output_record. fold (output_path dist h).
    rewrite lookup_insert_eq. split_and!; [done..|].
    intros v [Hv|Hv]%elem_of_app.
    + destruct (dict_lookup (conceptdoi h) upd0) as [vs0|] eqn:Hk;
        [|by apply not_elem_of_nil in Hv].
      destruct (Hinv _ _ Hk) as (w0 & Hw0 & _ & Hl).
      unfold output_record in Hw0. fold (output_path dist h) in Hw0.
      unfold existing in Hvs. rewrite Hw0 in Hvs.
      destruct (Hl v Hv) as (v' & Hv' & ->). exists v'.
      split; [|done]. rewrite Hvs. by right.
    + apply list_elem_of_singleton in Hv as ->.
      exists (after_hoist (new_version_of h d)). by split.
  - rewrite dict_append_lookup_ne by done. intros Hk.
    destruct (Hinv _ _ Hk) as (w0 & Hw0 & Hrest). exists w0.
    split; [|done]. unfold output_record in *.
    rewrite lookup_insert_ne; [done|].
    intros Heq. by apply output_path_inj in Heq.
Qed.

(** ** Which pages are gone through *)

Lemma scan_pages_seq (rs : list response) p k log st :
  (∀ i r, rs !! i = Some r → zenodo_get (p + i) = inr r ∧ full_page r) →
  (k ≠ 0 → ∃ r, zenodo_get (p + length rs) = inr r ∧ last_page r) →
  match for_each process_hit (concat (page_hits <$> rs)) st with
  | inl e => scan_pages (seq p (length rs + k)) log st = inl e
  | inr st' =>
    ∃ log', scan_pages (seq p (length rs + k)) log st = inr (log', st')
  end.
Proof.
  revert p log st. induction rs as [|r rs IH]; intros p log st Hfull Hlast.
  - cbn [fmap list_fmap concat for_each length Nat.add].
    destruct k as [|k]; [by eexists|].
    destruct Hlast as (r & Hr & Hend); [done|].
    rewrite Nat.add_0_r in Hr.
    cbn [seq ZenodoScan.scan_pages]. rewrite Hr. cbn [bind].
    destruct (status_code r =? 200)%Z eqn:Hcode; cbn [negb];
      [|by eexists].
    destruct Hend as [Hne| ->]; [|by eexists].
    by apply Z.eqb_eq in Hcode.
  - destruct (Hfull 0 r) as (Hr & Hcode & Hhits); [done|].
    rewrite Nat.add_0_r in Hr.
    cbn [length Nat.add seq ZenodoScan.scan_pages]. rewrite Hr.
    cbn [bind]. apply Z.eqb_eq in Hcode as ->. cbn [negb].
    csimpl. rewrite for_each_app.
    destruct (page_hits r) as [|h hs] eqn:Hh; [done|].
    destruct (for_each process_hit (h :: hs) st) as [e|st1]; [done|].
    cbn [bind]. apply IH.
    + intros i r' Hi. rewrite Nat.add_succ_comm. by apply Hfull.
    + cbn [length] in Hlast. by rewrite Nat.add_succ_comm.
Qed.

(** X11.  The scan goes through the pages in order, from page 1, as
    long as the archive answers 200 with hits, and through page 9 at
    most.  When the pages 1 to n answer so, and n is 9 or page n+1 is
    answered with another status or without hits, the scan is the loop
    over the hits of the pages 1 to n, in order: it raises what that
    loop raises, and leaves the state that loop leaves.  What the
    archive would answer for a later page plays no part. *)
Theorem update_from_zenodo_pages upd fs (rs : list response) :
  (length rs ≤ 9)%nat →
  (∀ i r, rs !! i = Some r → zenodo_get (S i) = inr r ∧ full_page r) →
  ((length rs < 9)%nat →
   ∃ r, zenodo_get (S (length rs)) = inr r ∧ last_page r) →
  match for_each process_hit (concat (page_hits <$> rs)) (fs, upd, []) with
  | inl e => update_from_zenodo upd fs = inl e
  | inr st' => ∃ log, update_from_zenodo upd fs = inr (log, st')
  end.
Proof.
  intros Hlen Hfull Hlast. unfold ZenodoScan.update_from_zenodo, pages_1_to_9.
  pose proof (scan_pages_seq rs 1 (9 - length rs) [] (fs, upd, [])) as H.
  replace (length rs + (9 - length rs)) with 9 in H by lia.
  apply H; [done|]. intros Hk. apply Hlast. lia.
Qed.

Lemma update_from_zenodo_appended_only fs log fs' upd' out :
  update_from_zenodo [] fs = inr (log, (fs', upd', out)) →
  appended_only upd'.
Proof.
  intros Hscan.
  eapply (scan_pages_inv (λ s, appended_only s.1.2)
            pages_1_to_9 [] (fs, [], []) log (fs', upd', out));
    [|split; constructor|exact Hscan].
  intros page r h [[fs0 upd0] out0] s' _ _ _ Hwf Hstep.
  apply process_hit_cases in Hstep
    as (d & _ & [[_ ->]|(w & _ & ->)]); [done|].
  by apply dict_append_appended_only.
Qed.

End pages.

(** ** The selection, for every count *)

Lemma slice_to_as_take {A} (n : Z) (l : list A) :
  ∃ m, slice_to n l = take m l.
Proof. unfold slice_to. destruct (0 <=? n)%Z; by eexists. Qed.

Lemma list_filter_sublist {A} (f : A → bool) (l : list A) :
  List.filter f l `sublist_of` l.
Proof.
  induction l as [|x l IH]; simpl; [done|].
  destruct (f x); by constructor.
Qed.

Lemma limited_updated_resources_any n git_branch_r
    (items : list (string * list Version)) :
  NoDup items.*1 → Forall (λ kv, kv.2 ≠ []) items →
  limited_updated_resources n git_branch_r items
  = inr (List.filter (λ kv, negb (pending git_branch_r kv))
           (slice_to n (py_sort tuple_leb key_of false items))).
Proof.
  intros Hnd Hne. unfold limited_updated_resources.
  rewrite oldest_updated_resources_spec by done. cbn [bind ret].
  rewrite py_dict_nodup.
  - f_equal. apply filter_ext. intros kv. by rewrite marker_test.
  - destruct (slice_to_as_take n (py_sort tuple_leb key_of false items))
      as (m & ->).
    rewrite fmap_take. eapply sublist_NoDup; [|apply sublist_take].
    by rewrite py_sort_perm.
Qed.

Lemma dict_lookup_nodup {V} (l : list (string * V)) k v :
  NoDup l.*1 → (k, v) ∈ l → dict_lookup k l = Some v.
Proof.
  induction l as [|[k' v'] l IH]; csimpl; intros Hnd Hin.
  { by apply not_elem_of_nil in Hin. }
  apply NoDup_cons in Hnd as [Hk' Hnd].
  apply elem_of_cons in Hin as [[= -> ->]|Hin].
  - by rewrite String.eqb_refl.
  - destruct (String.eqb_spec k' k) as [->|_]; [|by apply IH].
    destruct Hk'. by apply (list_elem_of_fmap_2 fst _ (k, v)).
Qed.

(** what is selected, for every count *)
Lemma selected_spec n git_branch_r (items : list (string * list Version)) :
  NoDup items.*1 → Forall (λ kv, kv.2 ≠ []) items →
  let sel := List.filter (λ kv, negb (pending git_branch_r kv))
               (slice_to n (py_sort tuple_leb key_of false items)) in
  sel `sublist_of` py_sort tuple_leb key_of false items
  ∧ NoDup sel.*1
  ∧ Forall (λ kv, dict_lookup kv.1 items = Some kv.2 ∧ kv.2 ≠ []
                  ∧ auto_update_branch kv.1 ∉ git_branch_r) sel.
Proof.
  intros Hnd Hne sel.
  assert (sel `sublist_of` py_sort tuple_leb key_of false items) as Hsub.
  { subst sel. etransitivity; [apply list_filter_sublist|].
    destruct (slice_to_as_take n (py_sort tuple_leb key_of false items))
      as (m & ->). apply sublist_take. }
  split; [done|]. split.
  - eapply sublist_NoDup; [|by apply fmap_sublist].
    by rewrite py_sort_perm.
  - apply Forall_forall. intros [k vs] Hkv.
    assert ((k, vs) ∈ items) as Hin.
    { rewrite <-(py_sort_perm tuple_leb key_of false items).
      by eapply elem_of_sublist. }
    split_and!.
    + by apply dict_lookup_nodup.
    + by apply (proj1 (Forall_forall _ _) Hne (k, vs)).
    + subst sel. apply list_elem_of_In, filter_In in Hkv as [_ Hp].
      apply negb_true_iff, bool_decide_eq_false in Hp. done.
Qed.

(** X12.  [main] raises only what the scan raises: the selection
    cannot fail, for the mapping the scan leaves has no empty list (so
    every [min] of line 173 is defined), whatever the count and the
    remote branches are.  The files [main] leaves are the ones the scan
    leaves.  The selected resources are in the order oldest first, each
    once and with all its new versions, it has at least one, and none
    of them has an [auto-update] branch on [origin]. *)
Theorem main_selects_from_scan zenodo_get requests_get yaml_load
    collection dist (max_resource_count : Z) git_branch_r fs :
  match update_from_zenodo zenodo_get requests_get yaml_load
          collection dist [] fs with
  | inl e =>
    main zenodo_get requests_get yaml_load collection dist
         max_resource_count git_branch_r fs = inl e
  | inr (log, (fs', upd, out)) =>
    ∃ sel,
      main zenodo_get requests_get yaml_load collection dist
           max_resource_count git_branch_r fs = inr (fs', sel)
      ∧ sel `sublist_of` py_sort tuple_leb key_of false upd
      ∧ NoDup sel.*1
      ∧ Forall (λ kv, dict_lookup kv.1 upd = Some kv.2 ∧ kv.2 ≠ []
                      ∧ auto_update_branch kv.1 ∉ git_branch_r) sel
  end.
Proof.
  unfold main.
  destruct (update_from_zenodo _ _ _ _ _ _ _)
    as [e|[log [[fs' upd] out]]] eqn:Hscan; [done|].
  apply update_from_zenodo_appended_only in Hscan as [Hnd Hne].
  cbn [bind]. rewrite limited_updated_resources_any by done.
  cbn [bind ret]. eexists. split; [reflexivity|].
  by apply selected_spec.
Qed.

(** X13.  The selection for every integer count, on a mapping without
    empty lists: it never raises.  It is made of the resources in the
    order oldest first: of the first [max_resource_count] of them when
    the count is not negative, so of none when it is 0; and of all but
    the last [-max_resource_count] of them when the count is negative,
    as Python slices.  Of these the ones with an [auto-update] branch
    are left out. *)
Theorem limited_updated_resources_any_count (max_resource_count : Z)
    git_branch_r (items : list (string * list Version)) :
  NoDup items.*1 →
  Forall (λ kv, kv.2 ≠ []) items →
  let oldest := py_sort tuple_leb key_of false items in
  let candidates :=
    if (0 <=? max_resource_count)%Z
    then take (Z.to_nat max_resource_count) oldest
    else take (length items - Z.to_nat (- max_resource_count)) oldest in
  limited_updated_resources max_resource_count git_branch_r items
  = inr (List.filter (λ kv, negb (pending git_branch_r kv)) candidates)
  ∧ (max_resource_count = 0%Z → candidates = [])
  ∧ ((Z.of_nat (length items) ≤ - max_resource_count)%Z → candidates = [])
  ∧ ((Z.of_nat (length items) ≤ max_resource_count)%Z →
     candidates = oldest).
Proof.
  intros Hnd Hne oldest candidates.
  assert (length oldest = length items) as Hlen.
  { subst oldest. by rewrite py_sort_perm. }
  assert (candidates = slice_to max_resource_count oldest) as Hc.
  { subst candidates. unfold slice_to.
    destruct (0 <=? max_resource_count)%Z eqn:Hn; [done|].
    apply Z.leb_gt in Hn. f_equal. lia. }
  split_and!.
  - rewrite Hc. by apply limited_updated_resources_any.
  - intros ->. subst candidates. by simpl.
  - intros Hle. subst candidates.
    destruct (0 <=? max_resource_count)%Z eqn:Hn.
    + apply Z.leb_le in Hn.
      replace (Z.to_nat max_resource_count) with 0 by lia. done.
    + replace (length items - _) with 0 by lia. done.
  - intros Hle. subst candidates.
    assert ((0 <=? max_resource_count)%Z = true) as -> by lia.
    apply take_ge. lia.
Qed.


Lemma update_from_zenodo_reports_written_witness :
  ∃ fs' upd',
    (∃ log out,
       update_from_zenodo archive descriptor_text parsed
         "collection" "dist" [] ∅ = inr (log, (fs', upd', out)))
    ∧ appended_only upd'
    ∧ ∀ k vs,
        dict_lookup k upd' = Some vs →
        ∃ w, output_record "dist" k fs' = Some (FResource w)
             ∧ mergeable w
             ∧ ∀ v, v ∈ vs → listed v (versions w).
Proof.
  assert (match update_from_zenodo archive descriptor_text parsed
                  "collection" "dist" [] ∅ with
          | inr _ => true
          | inl _ => false
          end = true) as Hr by (vm_compute; reflexivity).
  revert Hr.
  destruct (update_from_zenodo archive descriptor_text parsed
              "collection" "dist" [] ∅)
    as [e|[log [[fs' upd'] out]]] eqn:E; intros Hr; [discriminate Hr|].
  exists fs', upd'. split; [by exists log, out|].
  exact (update_from_zenodo_reports_written archive descriptor_text parsed
           "collection" "dist" ∅ log fs' upd' out E).
Defined.

Lemma update_from_zenodo_pages_witness :
  ∃ log st',
    for_each (process_hit descriptor_text parsed "collection" "dist")
             [hit_a; hit_b; hit_a] (∅, [], []) = inr st'
    ∧ update_from_zenodo archive descriptor_text parsed
        "collection" "dist" [] ∅ = inr (log, st').
Proof.
  pose proof (update_from_zenodo_pages archive descriptor_text parsed
                "collection" "dist" [] ∅
                [mkResponse 200 [hit_a; hit_b]; mkResponse 200 [hit_a]])
    as H.
  cbn [fmap list_fmap concat page_hits app] in H.
  assert (match for_each (process_hit descriptor_text parsed
                            "collection" "dist")
                  [hit_a; hit_b; hit_a] (∅, [], []) with
          | inr _ => true
          | inl _ => false
          end = true) as Hr by (vm_compute; reflexivity).
  revert H Hr.
  destruct (for_each (process_hit descriptor_text parsed "collection" "dist")
              [hit_a; hit_b; hit_a] (∅, [], [])) as [e|st'] eqn:E;
    intros H Hr; [discriminate Hr|].
  destruct H as (log & Hlog).
  - simpl. lia.
  - intros [|[|i]] r [= <-]; by split.
  - intros _. exists (mkResponse 200 []). split; [done|]. by right.
  - by exists log, st'.
Defined.

Lemma limited_updated_resources_any_count_witness :
  limited_updated_resources (-1) branches four_updated
  = inr [("r-a", [version "102" "02-01"; version "103" "04-01"]);
         ("r-c", [version "301" "03-01"])].
Proof.
  apply (limited_updated_resources_any_count (-1) branches four_updated).
  - apply (bool_decide_unpack _). by vm_compute.
  - repeat constructor; discriminate.
Defined.

End ScanPagesFacts.

(** * The step output *)

Module GhActionsFacts.
Import GhActions GenerateMoreSpec.

Lemma replace_char_app old new s t :
  replace_char old new (s +:+ t)
  = replace_char old new s +:+ replace_char old new t.
Proof.
  induction s as [|c s IH]; [done|].
  rewrite string_app_cons. cbn [replace_char]. destruct (Ascii.eqb c old).
  - by rewrite IH, string_app_assoc.
  - by rewrite IH.
Qed.

Lemma escape_cons c s : escape (String c s) = escape_char c +:+ escape s.
Proof.
  unfold escape, escape_char. cbn [replace_char].
  destruct (Ascii.eqb_spec c percent) as [->|Hp]; [done|].
  cbn [replace_char].
  destruct (Ascii.eqb_spec c cr) as [->|Hc]; [done|].
  cbn [replace_char].
  destruct (Ascii.eqb_spec c lf) as [->|Hl]; [done|].
  done.
Qed.

Lemma unescape_other c s :
  c ≠ percent → unescape (String c s) = String c (unescape s).
Proof.
  intros Hc. destruct c as [[] [] [] [] [] [] [] []]; try done.
Qed.

Lemma unescape_escaped s :
  unescape ("%25" +:+ s) = String percent (unescape s)
  ∧ unescape ("%0D" +:+ s) = String cr (unescape s)
  ∧ unescape ("%0A" +:+ s) = String lf (unescape s).
Proof. done. Qed.

Lemma has_char_app c s t :
  has_char c (s +:+ t) = has_char c s || has_char c t.
Proof.
  induction s as [|a s IH]; [done|].
  rewrite string_app_cons. cbn [has_char]. by rewrite IH, orb_assoc.
Qed.

(** X14.  The value of a step output is written on one line, and
    nothing of it is lost: what [set_gh_actions_output] prints for a
    value has no carriage return and no line feed, and taking the three
    escapes back gives the value.  The printed line has a line feed
    only when the name has one. *)
Theorem escape_round_trip name output :
  has_char cr (escape output) = false
  ∧ has_char lf (escape output) = false
  ∧ unescape (escape output) = output
  ∧ has_char lf (set_gh_actions_output name output) = has_char lf name.
Proof.
  assert (has_char cr (escape output) = false
          ∧ has_char lf (escape output) = false
          ∧ unescape (escape output) = output) as (Hcr & Hlf & Hun).
  { induction output as [|c s (IHcr & IHlf & IHun)]; [done|].
    destruct (unescape_escaped (escape s)) as (Hp' & Hc' & Hl').
    rewrite escape_cons, !has_char_app, IHcr, IHlf.
    unfold escape_char.
    destruct (Ascii.eqb_spec c percent) as [->|Hp].
    { split_and!; [done..|]. by rewrite Hp', IHun. }
    destruct (Ascii.eqb_spec c cr) as [->|Hc].
    { split_and!; [done..|]. by rewrite Hc', IHun. }
    destruct (Ascii.eqb_spec c lf) as [->|Hl].
    { split_and!; [done..|]. by rewrite Hl', IHun. }
    split_and!.
    - cbn. apply Ascii.eqb_neq in Hc. by rewrite Hc.
    - cbn. apply Ascii.eqb_neq in Hl. by rewrite Hl.
    - rewrite string_app_cons.
      change ("" +:+ escape s) with (escape s).
      by rewrite unescape_other, IHun. }
  split_and!; [done..|].
  unfold set_gh_actions_output. rewrite !has_char_app, Hlf.
  cbn. by rewrite !orb_false_r.
Qed.

End GhActionsFacts.

(** * More about the JSON projection *)

Module JsonMore.
Import GenerateCollectionRdf GenerateSpec JsonFacts GenerateMoreSpec.
Import GenerateExamples.

Lemma convert_for_json_ready v :
  json_ready v = true → convert_for_json v = VTrue.
Proof.
  destruct v as [| | |f| | | |]; try done.
  by destruct f as [[]|[]| |[] ? ?].
Qed.

(** what is put in the place of an item has no infinite float and no
    datetime *)
Lemma visit_item_ready x : json_ready (visit_item convert_for_json x) = true.
Proof.
  induction x as [| b | z | f | s | d | l IH | d IH] using pyval_ind';
    try done.
  - by destruct f as [[]|[]| |[] ? ?].
  - unfold visit_item. rewrite remap_list.
    rewrite convert_for_json_container by done.
    cbn [json_ready]. apply forallb_forall. intros y Hy.
    apply in_map_iff in Hy as (x & <- & Hx).
    apply list_elem_of_In in Hx.
    by apply (proj1 (Forall_forall _ _) IH).
  - unfold visit_item. rewrite remap_dict.
    rewrite convert_for_json_container by done.
    cbn [json_ready]. apply forallb_forall. intros y Hy.
    apply in_map_iff in Hy as (x & <- & Hx).
    apply list_elem_of_In in Hx.
    by apply (proj1 (Forall_forall _ _) IH).
Qed.

(** a document without infinite floats and datetimes is left as it is *)
Lemma remap_ready v :
  json_ready v = true → remap convert_for_json v = v.
Proof.
  induction v as [| b | z | f | s | d | l IH | d IH] using pyval_ind';
    try done.
  - cbn [json_ready]. intros Hl. rewrite remap_list. f_equal.
    rewrite <-(map_id l) at 2. apply map_ext_in. intros x Hx.
    pose proof (proj1 (forallb_forall _ _) Hl x Hx) as Hr.
    apply list_elem_of_In in Hx.
    pose proof (proj1 (Forall_forall _ _) IH x Hx Hr) as Hx'.
    unfold visit_item. rewrite Hx'. by rewrite convert_for_json_ready.
  - cbn [json_ready]. intros Hl. rewrite remap_dict. f_equal.
    rewrite <-(map_id d) at 2. apply map_ext_in. intros [k x] Hx.
    pose proof (proj1 (forallb_forall _ _) Hl _ Hx) as Hr.
    apply list_elem_of_In in Hx.
    pose proof (proj1 (Forall_forall _ _) IH _ Hx Hr) as Hx'.
    cbn [fst snd] in *.
    unfold visit_item. rewrite Hx'. by rewrite convert_for_json_ready.
Qed.

(** X15.  The projection of a catalog has no infinite float and no
    datetime left, at any depth, and it has the keys of the catalog, in
    their order.  A document without infinite floats and datetimes is
    projected to itself, so projecting twice is projecting once. *)
Theorem remap_convert_for_json_ready (doc : pydict) :
  json_ready (remap convert_for_json (PDict doc)) = true
  ∧ (∃ doc', remap convert_for_json (PDict doc) = PDict doc'
             ∧ doc'.*1 = doc.*1)
  ∧ remap convert_for_json (remap convert_for_json (PDict doc))
    = remap convert_for_json (PDict doc)
  ∧ (json_ready (PDict doc) = true →
     remap convert_for_json (PDict doc) = PDict doc).
Proof.
  assert (json_ready (remap convert_for_json (PDict doc)) = true) as Hr.
  { rewrite remap_dict. cbn [json_ready]. apply forallb_forall.
    intros y Hy. apply in_map_iff in Hy as (x & <- & Hx).
    apply visit_item_ready. }
  split_and!.
  - done.
  - eexists. split; [apply remap_dict|].
    clear Hr. induction doc as [|[k x] doc IH]; [done|].
    csimpl. f_equal. apply IH.
  - by apply remap_ready.
  - apply remap_ready.
Qed.

Lemma remap_convert_for_json_ready_witness :
  remap convert_for_json (PDict template) = PDict template.
Proof.
  apply (remap_convert_for_json_ready template). by vm_compute.
Defined.

End JsonMore.

(** * More about the aggregation *)

Module GenerateMore.
Import GenerateCollectionRdf GenerateSpec GenerateFacts GenerateMoreSpec.
Import GenerateExamples.

(** ** The work trees *)

Lemma moved_refl st : moved st st.
Proof.
  split_and!; [done..|]. exists []. by rewrite app_nil_r, Nat.add_0_r.
Qed.

Lemma moved_trans st1 st2 st3 : moved st1 st2 → moved st2 st3 → moved st1 st3.
Proof.
  intros (Hg1 & Hu1 & new1 & Hp1 & Hs1) (Hg2 & Hu2 & new2 & Hp2 & Hs2).
  split_and!; [congruence|by etransitivity|].
  exists (new1 ++ new2). rewrite Hp2, Hp1, Hs2, Hs1, length_app.
  split; [by rewrite (assoc_L (++))|lia].
Qed.

Lemma moved_print m st : moved st (print m st).
Proof.
  split_and!; [done..|]. exists []. cbn. by rewrite app_nil_r, Nat.add_0_r.
Qed.

Lemma resolve_moved fp pb vid st loc st' :
  resolve fp pb vid st = inr (loc, st') → moved st st'.
Proof.
  unfold resolve. destruct fp; [|intros [= <- <-]; apply moved_refl].
  destruct (dir_at _ _) as [d|]; [|intros [= <- <-]; apply moved_refl].
  destruct (rdf_yaml d); [|intros [= <- <-]; apply moved_refl].
  unfold move_to_update. cbn [wt set_processed].
  destruct (gh_pages_update (wt st) !! vid) eqn:Hup; [done|].
  intros [= <- <-]. cbn. split_and!; [done| |].
  - by apply insert_subseteq.
  - exists [pb]. split; [done|]. cbn.
    rewrite map_size_insert_None by done. lia.
Qed.

Lemma add_version_moved r fp pb v latest st latest' st' :
  add_version r fp pb v (latest, st) = inr (latest', st') → moved st st'.
Proof.
  unfold add_version.
  destruct (negb _); [intros [= <- <-]; apply moved_refl|].
  destruct (resolve fp pb (version_id v) st) as [e|[loc st1]] eqn:Hres;
    [done|].
  apply resolve_moved in Hres. cbn [bind].
  destruct (dir_at loc (wt st1)) as [d|].
  2:{ intros [= <- <-]. eapply moved_trans; [done|apply moved_print]. }
  destruct (rdf_yaml d) as [c|].
  2:{ intros [= <- <-]. eapply moved_trans; [done|apply moved_print]. }
  destruct c;
    try (intros [= <- <-]; eapply moved_trans; [done|apply moved_print]).
  destruct latest as [latest|]; [|by intros [= <- <-]].
  destruct (dict_lookup _ latest) as [p|]; [|done].
  destruct p; try done. by intros [= <- <-].
Qed.

Lemma versions_loop_moved r fp pb vs latest st latest' st' :
  for_each (add_version r fp pb) vs (latest, st) = inr (latest', st') →
  moved st st'.
Proof.
  revert latest st. induction vs as [|v vs IH]; intros latest st.
  - intros [= <- <-]. apply moved_refl.
  - cbn [for_each].
    destruct (add_version r fp pb v (latest, st)) as [e|[l1 s1]] eqn:Hv;
      [done|].
    cbn [bind]. intros Hrest. apply add_version_moved in Hv.
    apply IH in Hrest. by eapply moved_trans.
Qed.

Lemma checkout_moved origin pb st : moved st (checkout origin pb st).
Proof.
  destruct (checkout_rest origin pb st) as (Hu & Hg & Hp).
  split_and!; [done|by rewrite Hu|].
  exists []. by rewrite Hp, Hu, app_nil_r, Nat.add_0_r.
Qed.

Lemma latest_version_of_moved remote_branches origin r st latest st' :
  latest_version_of remote_branches origin r st = inr (latest, st') →
  moved st st'.
Proof.
  unfold latest_version_of. intros Hloop.
  apply versions_loop_moved in Hloop.
  eapply moved_trans; [|exact Hloop].
  destruct (bool_decide _); [apply checkout_moved|apply moved_refl].
Qed.

Lemma file_latest_moved r_path latest st st' :
  file_latest r_path latest st = inr st' → moved st st'.
Proof.
  unfold file_latest.
  destruct (dict_get_default _ _ latest) as [| | | |ty| | |]; try done.
  destruct (attachments st) as [| | | | | | |att]; try done.
  destruct (dict_get ty _);
    try (intros [= <-]; split_and!; [done..|]; exists [];
         cbn; by rewrite app_nil_r, Nat.add_0_r).
  destruct (dict_lookup "previous_versions" latest) as [p|]; [|done].
  destruct p; try done.
  intros [= <-]. split_and!; [done..|]. exists [].
  cbn. by rewrite app_nil_r, Nat.add_0_r.
Qed.

Lemma process_resource_moved remote_branches origin r st st' :
  process_resource remote_branches origin r st = inr st' → moved st st'.
Proof.
  unfold process_resource.
  destruct (negb _); [intros [= <-]; apply moved_refl|].
  destruct (latest_version_of _ _ r st) as [e|[latest st1]] eqn:Hl; [done|].
  apply latest_version_of_moved in Hl. cbn [bind].
  destruct latest as [latest|].
  - intros Hf. apply file_latest_moved in Hf. by eapply moved_trans.
  - intros [= <-]. eapply moved_trans; [done|apply moved_print].
Qed.

Lemma resources_loop_moved remote_branches origin rs st st' :
  for_each (process_resource remote_branches origin) rs st = inr st' →
  moved st st'.
Proof.
  revert st. induction rs as [|r rs IH]; intros st.
  - intros [= <-]. apply moved_refl.
  - cbn [for_each].
    destruct (process_resource _ _ r st) as [e|st1] eqn:Hr; [done|].
    cbn [bind]. intros Hrest. apply process_resource_moved in Hr.
    apply IH in Hrest. by eapply moved_trans.
Qed.

(** X16.  [main] does not change the work tree of [gh-pages]; it only
    reads it.  It adds version directories to the update directory and
    overwrites none that is there; and it adds one directory for every
    entry of the processed previews it reports, so a preview with two
    versions is reported twice.  It reports ["yes"] exactly when it has
    added a directory. *)
Theorem main_moves_previews template remote_branches origin known_resources
    work out :
  main template remote_branches origin known_resources work = inr out →
  gh_pages (wt (final out)) = gh_pages work
  ∧ gh_pages_update work ⊆ gh_pages_update (wt (final out))
  ∧ size (gh_pages_update (wt (final out)))
    = size (gh_pages_update work) + length (processed_previews_out out)
  ∧ (processed_any_out out = "yes"
     ↔ gh_pages_update (wt (final out)) ≠ gh_pages_update work)
  ∧ (processed_any_out out = "no"
     ↔ gh_pages_update (wt (final out)) = gh_pages_update work).
Proof.
  intros Hmain.
  assert (processed_previews_out out
          = processed_gh_pages_previews (final out)
          ∧ processed_any_out out
            = match processed_gh_pages_previews (final out) with
              | [] => "no"
              | _ :: _ => "yes"
              end) as [Hp Hany].
  { revert Hmain. unfold main.
    destruct (for_each _ _ _) as [e|st]; [done|]. cbn [bind].
    destruct (dict_lookup "config" _) as [c|]; [|done].
    destruct c; try done. cbn [bind ret].
    destruct (json_dump _); [done|]. cbn [bind ret].
    by intros [= <-]. }
  apply main_attachments in Hmain as [_ Hloop].
  apply resources_loop_moved in Hloop as (Hg & Hu & new & Hnew & Hsize).
  cbn [wt processed_gh_pages_previews app] in Hg, Hu, Hnew, Hsize.
  rewrite Hp, Hany, Hnew. split_and!; [done..| |].
  - destruct new as [|pb new].
    + split; [done|]. intros Hne. destruct Hne. symmetry.
      apply map_subseteq_size_eq; [done|]. simpl in Hsize. lia.
    + split; [|done]. intros _ Heq. rewrite Heq in Hsize.
      simpl in Hsize. lia.
  - destruct new as [|pb new].
    + split; [|done]. intros _. symmetry.
      apply map_subseteq_size_eq; [done|]. simpl in Hsize. lia.
    + split; [done|]. intros Heq. rewrite Heq in Hsize.
      simpl in Hsize. lia.
Qed.

Lemma main_moves_previews_witness :
  ∃ out, main template remotes_r1 origin_r1 [r1] work_r1 = inr out
         ∧ gh_pages (wt (final out)) = gh_pages work_r1
         ∧ size (gh_pages_update (wt (final out)))
           = size (gh_pages_update work_r1)
             + length (processed_previews_out out).
Proof.
  assert (match main template remotes_r1 origin_r1 [r1] work_r1 with
          | inr _ => true
          | inl _ => false
          end = true) as Hr by (vm_compute; reflexivity).
  revert Hr.
  destruct (main template remotes_r1 origin_r1 [r1] work_r1)
    as [e|out] eqn:E; intros Hr; [discriminate Hr|].
  exists out. split; [done|].
  destruct (main_moves_previews template remotes_r1 origin_r1 [r1] work_r1
              out E) as (Hg & _ & Hs & _).
  by split.
Defined.

(** ** The counts *)

Lemma n_entries_get ty att :
  n_entries ty (PDict att)
  = match dict_get ty att with
    | PList bucket => Z.of_nat (length bucket)
    | _ => 0%Z
    end.
Proof.
  unfold n_entries, dict_get.
  destruct (dict_lookup ty att) as [v|]; [|done]. by destruct v.
Qed.

Lemma n_versions_get ty att :
  n_versions ty (PDict att)
  = match dict_get ty att with
    | PList bucket => sum_list (n_versions_of <$> bucket)
    | _ => 0%Z
    end.
Proof.
  unfold n_versions, dict_get.
  destruct (dict_lookup ty att) as [v|]; [|done]. by destruct v.
Qed.

Lemma n_entries_set_ne t ty v att :
  ty ≠ t → n_entries t (PDict (dict_set ty v att)) = n_entries t (PDict att).
Proof. intros Hne. unfold n_entries. by rewrite dict_lookup_set_ne. Qed.

Lemma n_versions_set_ne t ty v att :
  ty ≠ t →
  n_versions t (PDict (dict_set ty v att)) = n_versions t (PDict att).
Proof. intros Hne. unfold n_versions. by rewrite dict_lookup_set_ne. Qed.

Lemma count_of_set_eq ty z n : count_of ty (dict_set ty z n) = z.
Proof. unfold count_of. by rewrite dict_lookup_set_eq. Qed.

Lemma count_of_set_ne t ty z n :
  ty ≠ t → count_of t (dict_set ty z n) = count_of t n.
Proof. intros Hne. unfold count_of. by rewrite dict_lookup_set_ne. Qed.

Lemma sum_list_app l1 l2 :
  sum_list (l1 ++ l2) = (sum_list l1 + sum_list l2)%Z.
Proof.
  unfold sum_list. induction l1 as [|x l1 IH]; simpl; [done|].
  rewrite IH. lia.
Qed.

Lemma file_latest_counted att0 r_path latest st st' :
  counted att0 st → file_latest r_path latest st = inr st' →
  counted att0 st'.
Proof.
  intros Hc. unfold file_latest.
  destruct (dict_get_default _ _ latest) as [| | | |ty| | |]; try done.
  destruct (attachments st) as [| | | | | | |att] eqn:Hatt; try done.
  rewrite dict_get_set_eq.
  assert (¬ is_list (dict_get ty att) →
          counted att0
            (print (IgnoringResourceWithType r_path ty)
               (set_attachments
                  (PDict (dict_set ty (dict_get ty att) att)) st)))
    as Hskip.
  { intros Hv t. cbn [attachments n_accepted n_accepted_versions
                      print set_attachments].
    destruct (Hc t) as [He Hn]. rewrite Hatt in He, Hn.
    destruct (decide (ty = t)) as [<-|Hne].
    - rewrite <-He, <-Hn.
      rewrite !n_entries_get, !n_versions_get, dict_get_set_eq.
      by destruct (dict_get ty att).
    - by rewrite n_entries_set_ne, n_versions_set_ne. }
  destruct (dict_get ty att) as [| | | | | |bucket|] eqn:Hget;
    try (intros [= <-]; apply Hskip; by intros []).
  destruct (dict_lookup "previous_versions" latest) as [p|] eqn:Hp; [|done].
  destruct p as [| | | | | |previous|]; try done.
  intros [= <-] t.
  cbn [attachments n_accepted n_accepted_versions set_counts
       set_attachments].
  destruct (Hc t) as [He Hn]. rewrite Hatt in He, Hn.
  destruct (decide (ty = t)) as [<-|Hne].
  - rewrite !count_of_set_eq. rewrite dict_set_set.
    rewrite n_entries_get, n_versions_get, dict_get_set_eq.
    rewrite n_entries_get, Hget in He.
    rewrite n_versions_get, Hget in Hn.
    rewrite length_app, fmap_app, sum_list_app.
    cbn [fmap list_fmap n_versions_of sum_list foldr length].
    rewrite Hp. unfold count_of in *. lia.
  - rewrite !count_of_set_ne by done.
    by rewrite !n_entries_set_ne, !n_versions_set_ne.
Qed.

Lemma counted_same att0 st st' :
  same_catalog st st' → counted att0 st → counted att0 st'.
Proof.
  intros (Ha & Hn & Hnv) Hc t. rewrite Ha, Hn, Hnv. apply Hc.
Qed.

Lemma process_resource_counted att0 remote_branches origin r st st' :
  counted att0 st →
  process_resource remote_branches origin r st = inr st' →
  counted att0 st'.
Proof.
  intros Hc. unfold process_resource.
  destruct (negb _); [by intros [= <-]|].
  destruct (latest_version_of _ _ r st) as [e|[latest st1]] eqn:Hl; [done|].
  apply latest_version_of_frame in Hl. cbn [bind].
  pose proof (counted_same att0 _ _ Hl Hc) as Hc1.
  destruct latest as [latest|].
  - by apply file_latest_counted.
  - intros [= <-]. by eapply counted_same; [|exact Hc1].
Qed.

Lemma resources_loop_counted att0 remote_branches origin rs st st' :
  counted att0 st →
  for_each (process_resource remote_branches origin) rs st = inr st' →
  counted att0 st'.
Proof.
  revert st. induction rs as [|r rs IH]; intros st Hc.
  - by intros [= <-].
  - cbn [for_each].
    destruct (process_resource _ _ r st) as [e|st1] eqn:Hr; [done|].
    cbn [bind]. apply IH. by eapply process_resource_counted.
Qed.

(** X17.  The counts [main] writes to the config are the numbers of
    what it has added to the catalog: for every type, the list of the
    type in the attachments that are written has as many entries more
    than the list of the template as [n_resources] says, and these
    entries stand for as many versions (each entry with its previous
    versions) as [n_resource_versions] says.  A type without a count
    has got no entry. *)
Theorem main_counts template remote_branches origin known_resources
    work out :
  main template remote_branches origin known_resources work = inr out →
  ∃ att config n nv,
    dict_lookup "attachments" (rdf_yaml_out out) = Some att
    ∧ dict_lookup "config" (rdf_yaml_out out) = Some (PDict config)
    ∧ dict_lookup "n_resources" config = Some (counts_doc n)
    ∧ dict_lookup "n_resource_versions" config = Some (counts_doc nv)
    ∧ ∀ type_,
        n_entries type_ att
        = (n_entries type_
             (dict_get_default "attachments" (PDict []) template)
           + count_of type_ n)%Z
        ∧ n_versions type_ att
          = (n_versions type_
               (dict_get_default "attachments" (PDict []) template)
             + count_of type_ nv)%Z.
Proof.
  intros Hmain.
  pose proof (main_attachments _ _ _ _ _ _ Hmain) as [Hatt Hloop].
  apply (resources_loop_counted
           (dict_get_default "attachments" (PDict []) template))
    in Hloop.
  2:{ intros t. cbn. unfold count_of. cbn. lia. }
  exists (attachments (final out)).
  revert Hmain Hatt Hloop. unfold main.
  destruct (for_each _ _ _) as [e|st]; [done|]. cbn [bind].
  destruct (dict_lookup "config" _) as [c|]; [|done].
  destruct c as [| | | | | | |config]; try done. cbn [bind ret].
  destruct (json_dump _); [done|]. cbn [bind ret].
  intros [= <-]. cbn [rdf_yaml_out final]. intros Hatt Hloop.
  eexists _, (n_accepted st), (n_accepted_versions st).
  split; [done|]. split; [apply dict_lookup_set_eq|].
  split; [by rewrite dict_lookup_set_ne, dict_lookup_set_eq|].
  split; [apply dict_lookup_set_eq|]. exact Hloop.
Qed.

Lemma main_counts_witness :
  ∃ out att config n nv,
    main template remotes_r1 origin_r1 [r1] work_r1 = inr out
    ∧ dict_lookup "attachments" (rdf_yaml_out out) = Some att
    ∧ dict_lookup "config" (rdf_yaml_out out) = Some (PDict config)
    ∧ dict_lookup "n_resources" config = Some (counts_doc n)
    ∧ dict_lookup "n_resource_versions" config = Some (counts_doc nv)
    ∧ n_entries "model" att
      = (n_entries "model"
           (dict_get_default "attachments" (PDict []) template)
         + count_of "model" n)%Z.
Proof.
  assert (match main template remotes_r1 origin_r1 [r1] work_r1 with
          | inr _ => true
          | inl _ => false
          end = true) as Hr by (vm_compute; reflexivity).
  revert Hr.
  destruct (main template remotes_r1 origin_r1 [r1] work_r1)
    as [e|out] eqn:E; intros Hr; [discriminate Hr|].
  destruct (main_counts template remotes_r1 origin_r1 [r1] work_r1 out E)
    as (att & config & n & nv & Ha & Hc & Hn & Hnv & Hall).
  exists out, att, config, n, nv. split_and!; [done..|]. apply Hall.
Defined.

(** ** Only what is accepted counts *)

Lemma add_version_skip r fp pb v acc :
  String.eqb (v_status v) "accepted" = false →
  add_version r fp pb v acc = inr acc.
Proof. intros Hv. unfold add_version. destruct acc. by rewrite Hv. Qed.

Lemma add_version_ext r r' fp pb v acc :
  resource_id r = resource_id r' →
  add_version r fp pb v acc = add_version r' fp pb v acc.
Proof. intros Hid. unfold add_version. by rewrite Hid. Qed.

Lemma versions_loop_accepted r r' fp pb vs acc :
  resource_id r = resource_id r' →
  for_each (add_version r fp pb) vs acc
  = for_each (add_version r' fp pb)
      (List.filter (λ v, String.eqb (v_status v) "accepted") vs) acc.
Proof.
  intros Hid. revert acc. induction vs as [|v vs IH]; intros acc; [done|].
  cbn [for_each List.filter].
  destruct (String.eqb (v_status v) "accepted") eqn:Hv.
  - cbn [for_each]. rewrite (add_version_ext r r') by done.
    destruct (add_version r' fp pb v acc); [done|]. apply IH.
  - rewrite add_version_skip by done. apply IH.
Qed.




(** ** A resource without a preview *)

Lemma add_version_first r pb v st d doc :
  String.eqb (v_status v) "accepted" = true →
  gh_pages (wt st) !! version_id v = Some d → version_doc d = Some doc →
  add_version r false pb v (None, st)
  = inr (Some (dict_set "previous_versions" (PList [])
                 (dict_set "resource_id" (PStr (resource_id r)) doc)), st).
Proof.
  intros Hv Hd Hdoc. unfold add_version, version_doc in *. rewrite Hv.
  cbn [negb resolve bind ret dir_at]. rewrite Hd.
  destruct (rdf_yaml d) as [c|]; [|done].
  destruct c; try done. by injection Hdoc as <-.
Qed.

Lemma add_version_next r pb v st d doc latest previous :
  String.eqb (v_status v) "accepted" = true →
  gh_pages (wt st) !! version_id v = Some d → version_doc d = Some doc →
  dict_lookup "previous_versions" latest = Some (PList previous) →
  add_version r false pb v (Some latest, st)
  = inr (Some (dict_set "previous_versions"
                 (PList (previous ++ [PDict doc])) latest), st).
Proof.
  intros Hv Hd Hdoc Hp. unfold add_version, version_doc in *. rewrite Hv.
  cbn [negb resolve bind ret dir_at]. rewrite Hd.
  destruct (rdf_yaml d) as [c|]; [|done].
  destruct c; try done. injection Hdoc as <-. by rewrite Hp.
Qed.

Lemma versions_loop_next r pb vs docs st latest previous :
  docs_of st vs docs →
  dict_lookup "previous_versions" latest = Some (PList previous) →
  for_each (add_version r false pb) vs (Some latest, st)
  = inr (Some (dict_set "previous_versions"
                 (PList (previous ++ (PDict <$> docs))) latest), st).
Proof.
  intros Hdocs. revert latest previous.
  induction Hdocs as [|v doc vs docs [Hv Hdoc] _ IH]; intros latest previous Hp.
  - cbn. rewrite app_nil_r. by rewrite dict_set_same.
  - cbn [for_each].
    destruct (gh_pages (wt st) !! version_id v) as [d|] eqn:Hd; [|done].
    cbn in Hdoc.
    rewrite (add_version_next _ _ _ _ d doc latest previous) by done.
    cbn [bind]. rewrite (IH _ (previous ++ [PDict doc])).
    + rewrite dict_set_set. csimpl. by rewrite <-(assoc_L (++)).
    + apply dict_lookup_set_eq.
Qed.

Lemma latest_version_of_docs remote_branches origin r st docs :
  "origin/" +:+ preview_branch_of r ∉ remote_branches →
  docs_of st (List.filter (λ v, String.eqb (v_status v) "accepted")
                          (versions r)) docs →
  latest_version_of remote_branches origin r st
  = inr (match docs with
         | [] => None
         | first :: previous =>
           Some (entry_with (resource_id r) first previous)
         end, st).
Proof.
  intros Hrb Hdocs. unfold latest_version_of.
  rewrite bool_decide_eq_false_2 by done.
  rewrite (versions_loop_accepted r r) by done.
  destruct Hdocs as [|v first vs previous [Hv Hdoc] Hdocs]; [done|].
  cbn [for_each].
  destruct (gh_pages (wt st) !! version_id v) as [d|] eqn:Hd; [|done].
  cbn in Hdoc. rewrite (add_version_first _ _ _ _ d first) by done.
  cbn [bind].
  rewrite (versions_loop_next _ _ _ previous _ _ []);
    [|done|apply dict_lookup_set_eq].
  by rewrite dict_set_set.
Qed.

(** X19.  A resource without a preview branch, of which every accepted
    version is on [gh-pages] as a mapping: its entry is the first
    accepted version of the record, with the id of the resource; the
    accepted versions after it are its [previous_versions], in the
    order of the record, each with its validation summaries.  The
    work trees are not changed and nothing is printed.  When the
    resource is accepted and the type of the first version has a list,
    the entry is appended to it, and the count of the versions of the
    type goes up by the number of accepted versions. *)
Theorem process_resource_canonical remote_branches origin r st
    first previous :
  "origin/" +:+ preview_branch_of r ∉ remote_branches →
  docs_of st (List.filter (λ v, String.eqb (v_status v) "accepted")
                          (versions r)) (first :: previous) →
  latest_version_of remote_branches origin r st
  = inr (Some (entry_with (resource_id r) first previous), st)
  ∧ dict_lookup "previous_versions"
      (entry_with (resource_id r) first previous)
    = Some (PList (PDict <$> previous))
  ∧ ∀ att ty bucket,
      status r = "accepted" →
      attachments st = PDict att →
      type_of first = PStr ty →
      dict_lookup ty att = Some (PList bucket) →
      ∃ st', process_resource remote_branches origin r st = inr st'
             ∧ attachments st'
               = PDict (dict_set ty
                          (PList (bucket
                                  ++ [PDict (entry_with (resource_id r)
                                                        first previous)]))
                          att)
             ∧ wt st' = wt st ∧ printed st' = printed st
             ∧ count_of ty (n_accepted st')
               = (count_of ty (n_accepted st) + 1)%Z
             ∧ count_of ty (n_accepted_versions st')
               = (count_of ty (n_accepted_versions st)
                  + Z.of_nat (length (first :: previous)))%Z.
Proof.
  intros Hrb Hdocs.
  pose proof (latest_version_of_docs _ origin _ _ _ Hrb Hdocs) as Hlatest.
  assert (dict_lookup "previous_versions"
            (entry_with (resource_id r) first previous)
          = Some (PList (PDict <$> previous))) as Hp
    by apply dict_lookup_set_eq.
  split_and!; [done..|].
  intros att ty bucket Hr Hatt Hty Hb. unfold process_resource.
  rewrite Hr, Hlatest. cbn [negb String.eqb bind].
  rewrite (file_latest_list _ _ _ att ty bucket (PDict <$> previous));
    [|by unfold type_of, entry_with, dict_get_default in *;
         rewrite !dict_lookup_set_ne|done..].
  eexists. split; [reflexivity|].
  cbn [attachments wt printed n_accepted n_accepted_versions set_counts
       set_attachments].
  split_and!; [done..| |].
  - by rewrite count_of_set_eq.
  - rewrite count_of_set_eq, length_fmap. unfold count_of.
    change (length (first :: previous)) with (S (length previous)).
    unfold pydict. lia.
Qed.

Lemma process_resource_canonical_witness :
  latest_version_of [] ∅ r3 (start work_r3)
  = inr (Some (entry_with "r3" doc_u3 [doc_u2; doc_u1]), start work_r3)
  ∧ ∃ st', process_resource [] ∅ r3 (start work_r3) = inr st'
           ∧ count_of "model" (n_accepted_versions st')
             = (count_of "model" (n_accepted_versions (start work_r3))
                + 3)%Z.
Proof.
  destruct (process_resource_canonical [] ∅ r3 (start work_r3)
              doc_u3 [doc_u2; doc_u1]) as (Hl & _ & Hp).
  - apply not_elem_of_nil.
  - repeat (constructor; [split; [reflexivity|vm_refl]|]). constructor.
  - split; [exact Hl|].
    destruct (Hp [("model", PList [])] "model" [])
      as (st' & H1 & _ & _ & _ & _ & H2); [reflexivity..|].
    by exists st'.
Defined.

(** ** The validation summaries *)

Lemma dict_lookup_filter_ne {V} k s (d : list (string * V)) :
  dict_lookup k (List.filter (λ kv, negb (String.eqb kv.1 s)) d)
  = if String.eqb k s then None else dict_lookup k d.
Proof.
  induction d as [|[k' v] d IH]; cbn [List.filter dict_lookup fst].
  - by destruct (String.eqb k s).
  - destruct (String.eqb_spec k' s) as [->|Hne]; cbn [negb dict_lookup].
    + rewrite IH. rewrite (String.eqb_sym s k).
      by destruct (String.eqb k s).
    + rewrite IH. destruct (String.eqb_spec k' k) as [->|Hk]; [|done].
      by apply String.eqb_neq in Hne as ->.
Qed.

Lemma summary_of_spec src :
  ∃ fields, summary_of src = PDict fields
            ∧ dict_lookup "source_name" fields = None
            ∧ ∀ k, k ≠ "source_name" →
                   dict_lookup k fields = dict_lookup k (fields_of src).
Proof.
  unfold summary_of. fold (fields_of src). eexists. split; [done|]. split.
  - by rewrite dict_lookup_filter_ne.
  - intros k Hk. rewrite dict_lookup_filter_ne.
    by apply String.eqb_neq in Hk as ->.
Qed.

Lemma val_summaries_from (files : list (string * pyval)) acc name s :
  dict_lookup name
    (foldl (λ acc kv, dict_set kv.1 (summary_of kv.2) acc) acc files)
  = Some s →
  dict_lookup name acc = Some s
  ∨ ∃ src, (name, src) ∈ files ∧ s = summary_of src.
Proof.
  revert acc. induction files as [|[n src] files IH]; intros acc; [by left|].
  cbn [foldl fst snd]. intros H. apply IH in H as [H|(src' & Hin & ->)].
  - destruct (decide (n = name)) as [->|Hne].
    + rewrite dict_lookup_set_eq in H. injection H as <-.
      right. exists src. split; [left|done].
    + rewrite dict_lookup_set_ne in H by done. by left.
  - right. exists src'. split; [by right|done].
Qed.

Lemma val_summaries_all (files : list (string * pyval)) acc name :
  is_Some (dict_lookup name acc) ∨ name ∈ files.*1 →
  is_Some (dict_lookup name
             (foldl (λ acc kv, dict_set kv.1 (summary_of kv.2) acc)
                    acc files)).
Proof.
  revert acc. induction files as [|[n src] files IH]; intros acc.
  - intros [H|H]; [done|]. by apply not_elem_of_nil in H.
  - cbn [foldl fst snd]. intros H. apply IH.
    destruct (decide (n = name)) as [->|Hne].
    + left. by rewrite dict_lookup_set_eq.
    + rewrite dict_lookup_set_ne by done.
      destruct H as [H|H]; [by left|]. csimpl in H.
      apply elem_of_cons in H as [?|H]; [congruence|by right].
Qed.

(** X20.  What is made of a version directory carries the validation
    summaries of the directory, by name: every summary file of the
    directory has one, and every one is made of a file of its name.  A
    summary has no [source_name]; its other keys are the ones of the
    file, and a file that is not a mapping is the [output] of its
    summary. *)
Theorem version_doc_summaries d doc :
  version_doc d = Some doc →
  ∃ sums,
    dict_lookup "validation_summaries" doc = Some (PDict sums)
    ∧ (∀ name, name ∈ (validation_summary d).*1 →
               is_Some (dict_lookup name sums))
    ∧ ∀ name s,
        dict_lookup name sums = Some s →
        ∃ src fields,
          (name, src) ∈ validation_summary d
          ∧ s = PDict fields
          ∧ dict_lookup "source_name" fields = None
          ∧ ∀ k, k ≠ "source_name" →
                 dict_lookup k fields = dict_lookup k (fields_of src).
Proof.
  unfold version_doc. destruct (rdf_yaml d) as [c|]; [|done].
  destruct c as [| | | | | | |this_version]; try done.
  intros [= <-]. exists (val_summaries_of d).
  split; [apply dict_lookup_set_eq|]. split.
  - intros name Hname. apply val_summaries_all. by right.
  - intros name s Hs. apply val_summaries_from in Hs as [Hs|(src & Hin & ->)];
      [done|].
    destruct (summary_of_spec src) as (fields & Hf & Hsrc & Hk).
    by exists src, fields.
Qed.

Lemma version_doc_summaries_witness :
  ∃ sums,
    dict_lookup "validation_summaries" doc_u3 = Some (PDict sums)
    ∧ (∀ name, name ∈ ["static"] → is_Some (dict_lookup name sums))
    ∧ ∀ name s,
        dict_lookup name sums = Some s →
        ∃ src fields,
          (name, src) ∈ [("static", PDict [("status", PStr "passed");
                                          ("source_name", PStr "rdf.yaml")])]
          ∧ s = PDict fields
          ∧ dict_lookup "source_name" fields = None
          ∧ ∀ k, k ≠ "source_name" →
                 dict_lookup k fields = dict_lookup k (fields_of src).
Proof.
  apply (version_doc_summaries dir_u3 doc_u3). reflexivity.
Defined.

End GenerateMore.

(** * The order of [created] is the order in time *)

Module DatetimeOrder.
Import UpdateExternalResources DatetimeSpec ScanPages.












End DatetimeOrder.
